(** * dotfiles: the repository's path mapping, validation and traversal

    A shallow embedding of [dotfiles/repository.py] (class [Repository]) and
    of the parts of [py.path.local], [fnmatch] and the file system that the
    class relies on, followed by the properties of the embedded code.

    Modelling conventions.
    - A [py.path.local] always holds an absolute, normalised POSIX path.  It
      is embedded as the list of its components, root first ([path]); its
      string form is [strpath].  (POSIX keeps a leading double slash apart
      from a single one; such paths are outside the model.)
    - Relative paths handed around as Python strings stay strings: the code
      slices and formats them character by character.
    - The file system is a tree of directories and files; a directory keeps
      its entries in the order [os.listdir] reports them.  Symbolic links to
      directories are outside the model.
    - Code that raises returns a [result]; code that prints through
      [click.echo] returns the printed values next to its result. *)

From Stdlib Require Import String Ascii List Bool Arith Lia.
From Stdlib Require Import Permutation Sorted NArith.
Import ListNotations.

Local Open Scope string_scope.
Local Open Scope list_scope.

(* ================================================================== *)
(** ** Results of code that may raise *)

Inductive result (E A : Type) : Type :=
| Ok (a : A)
| Raise (e : E).

Arguments Ok {E A} a.
Arguments Raise {E A} e.

Definition bind {E A B} (m : result E A) (k : A -> result E B) : result E B :=
  match m with
  | Ok a => k a
  | Raise e => Raise e
  end.

Notation "x <- m ;; k" := (bind m (fun x => k))
  (at level 61, m at next level, right associativity).
Notation "m ;;; k" := (bind m (fun _ => k))
  (at level 61, right associativity).

(** [if cond: raise e] *)
Definition raise_if {E} (cond : bool) (e : E) : result E unit :=
  if cond then Raise e else Ok tt.

(** A loop body run over a list, stopping at the first exception. *)
Fixpoint foldM {E S A} (f : S -> A -> result E S) (l : list A) (s : S)
  : result E S :=
  match l with
  | [] => Ok s
  | a :: l' => s' <- f s a ;; foldM f l' s'
  end.

(* ================================================================== *)
(** ** Strings *)

Module Str.

Definition sep : ascii := "/"%char.

(** [s[1:]] *)
Definition drop1 (s : string) : string :=
  match s with
  | EmptyString => EmptyString
  | String _ s' => s'
  end.

(** [s.split('/')] *)
Fixpoint split (s : string) : list string :=
  match s with
  | EmptyString => [EmptyString]
  | String c s' =>
      if Ascii.eqb c sep then EmptyString :: split s'
      else match split s' with
           | w :: ws => String c w :: ws
           | [] => [String c EmptyString]
           end
  end.

(** ['/' in s] *)
Fixpoint has_sep (s : string) : bool :=
  match s with
  | EmptyString => false
  | String c s' => Ascii.eqb c sep || has_sep s'
  end.

(** [s.startswith(p)] *)
Fixpoint startswith (p s : string) : bool :=
  match p, s with
  | EmptyString, _ => true
  | String a p', String b s' => Ascii.eqb a b && startswith p' s'
  | String _ _, EmptyString => false
  end.

(** [x in l] for a list of strings *)
Fixpoint mem (x : string) (l : list string) : bool :=
  match l with
  | [] => false
  | y :: l' => String.eqb x y || mem x l'
  end.

End Str.

(* ================================================================== *)
(** ** [py.path.local] *)

Module Path.

(** The components of an absolute normalised path, root first. *)
Definition path := list string.

(** [str(p)], [p.strpath] *)
Definition strpath (p : path) : string :=
  String.append "/" (String.concat "/" p).

(** A name a directory entry can have. *)
Definition valid_name (s : string) : bool :=
  negb (String.eqb s "") && negb (String.eqb s ".")
  && negb (String.eqb s "..") && negb (Str.has_sep s).

Fixpoint eqb (p q : path) : bool :=
  match p, q with
  | [], [] => true
  | x :: p', y :: q' => String.eqb x y && eqb p' q'
  | _, _ => false
  end.

(** [p.basename] *)
Definition basename (p : path) : string := last p "".

(** One round of the loop of [posixpath.normpath] on an absolute path:
    empty and [.] components are dropped, [..] pops a component (and
    stays at the root), any other component is pushed. *)
Definition norm_step (new_comps : path) (comp : string) : path :=
  if String.eqb comp "" || String.eqb comp "." then new_comps
  else if String.eqb comp ".." then removelast new_comps
  else new_comps ++ [comp].

(** [self.join(arg)]: [normpath(self.strpath + '/' + arg.strip('/'))].
    [self] is normalised already, so [normpath] leaves its components as
    they are and goes on with those of [arg]; the slashes that [strip]
    removes would only add empty components, which [normpath] drops. *)
Definition join (self : path) (arg : string) : path :=
  fold_left norm_step (Str.split arg) self.

(** The two paths without the ancestors they share ([self.common(dest)]
    followed by [relto] on both). *)
Fixpoint strip_common (self dest : path) : path * path :=
  match self, dest with
  | x :: self', y :: dest' =>
      if String.eqb x y then strip_common self' dest' else (self, dest)
  | _, _ => (self, dest)
  end.

(** [self.bestrelpath(dest)] *)
Definition bestrelpath (self dest : path) : string :=
  if eqb self dest then "."
  else
    let '(self2base, reldest) := strip_common self dest in
    let l := repeat ".." (length self2base) in
    let l := match reldest with
             | [] => l
             | _ :: _ => l ++ [String.concat "/" reldest]
             end in
    String.concat "/" l.

End Path.

Import Path.

(* ================================================================== *)
(** ** [fnmatch] *)

Module Fnmatch.

(** What [fnmatch.translate] turns a pattern into, piece by piece. *)
Inductive item : Type :=
| Star
| Any
| Class (negate : bool) (ranges : list (ascii * ascii))
| Lit (c : ascii).

(** The text up to the first [']'] and the text after it. *)
Fixpoint until_close (s : string) : option (string * string) :=
  match s with
  | EmptyString => None
  | String c s' =>
      if Ascii.eqb c "]" then Some (EmptyString, s')
      else match until_close s' with
           | Some (a, b) => Some (String c a, b)
           | None => None
           end
  end.

(** The body of a bracket expression, given the text after its ['[']: a
    leading ['!'] and then a leading [']'] belong to the body; the body
    ends at the next [']'].  [None] when the bracket is never closed. *)
Definition class_body (s : string) : option string :=
  let '(bang, s1) :=
    match s with
    | String "!" t => ("!", t)
    | _ => ("", s)
    end in
  let '(first, s2) :=
    match s1 with
    | String "]" t => ("]", t)
    | _ => ("", s1)
    end in
  match until_close s2 with
  | Some (a, _) => Some (String.append bang (String.append first a))
  | None => None
  end.

(** The members of a bracket expression: [a-b] is a range, any other
    character stands for itself.  A range whose bounds are out of order
    holds no character. *)
Fixpoint ranges_of (s : string) : list (ascii * ascii) :=
  match s with
  | String lo (String "-" (String hi s')) => (lo, hi) :: ranges_of s'
  | String c s' => (c, c) :: ranges_of s'
  | EmptyString => []
  end.

Definition class_of (stuff : string) : item :=
  match stuff with
  | String "!" t => Class true (ranges_of t)
  | _ => Class false (ranges_of stuff)
  end.

(** [fnmatch.translate]; [skip] counts the characters of a bracket
    expression that are still to be passed over. *)
Fixpoint translate (skip : nat) (pat : string) : list item :=
  match pat with
  | EmptyString => []
  | String c pat' =>
      match skip with
      | S k => translate k pat'
      | O =>
          if Ascii.eqb c "*" then Star :: translate 0 pat'
          else if Ascii.eqb c "?" then Any :: translate 0 pat'
          else if Ascii.eqb c "[" then
            match class_body pat' with
            | Some stuff =>
                class_of stuff :: translate (S (String.length stuff)) pat'
            | None => Lit c :: translate 0 pat'
            end
          else Lit c :: translate 0 pat'
      end
  end.

Definition in_range (c : ascii) (r : ascii * ascii) : bool :=
  Nat.leb (nat_of_ascii (fst r)) (nat_of_ascii c)
  && Nat.leb (nat_of_ascii c) (nat_of_ascii (snd r)).

(** Whether the whole of [s] matches the translated pattern. *)
Fixpoint matches (items : list item) (s : string) : bool :=
  match items with
  | [] => match s with EmptyString => true | String _ _ => false end
  | Star :: items' =>
      (fix star (s : string) : bool :=
         matches items' s
         || match s with
            | EmptyString => false
            | String _ s' => star s'
            end) s
  | Any :: items' =>
      match s with
      | EmptyString => false
      | String _ s' => matches items' s'
      end
  | Class negate ranges :: items' =>
      match s with
      | EmptyString => false
      | String c s' =>
          xorb negate (existsb (in_range c) ranges) && matches items' s'
      end
  | Lit a :: items' =>
      match s with
      | EmptyString => false
      | String c s' => Ascii.eqb a c && matches items' s'
      end
  end.

(** [fnmatch.fnmatch(name, pat)] on POSIX, where [normcase] changes
    nothing. *)
Definition fnmatch (name pat : string) : bool :=
  matches (translate 0 pat) name.

End Fnmatch.

(** [self.fnmatch(pattern)] of [py.path.local] ([FNMatcher]): a pattern
    without a slash is matched against the basename, one with a slash
    against the whole path, after [*/] is put before a relative one. *)
Definition path_fnmatch (self : path) (pattern : string) : bool :=
  if negb (Str.has_sep pattern) then
    Fnmatch.fnmatch (basename self) pattern
  else
    let pattern :=
      if Str.startswith "/" pattern then pattern
      else String.append "*/" pattern in
    Fnmatch.fnmatch (strpath self) pattern.

(* ================================================================== *)
(** ** [Repository]: configuration and path mapping *)

(** The fields [__init__] stores.  [__init__] also creates [repodir] when
    it is missing; the properties below that need the repository to be a
    directory say so. *)
Record Repository : Type := {
  repodir : path;
  homedir : path;
  ignore : list string;
  dot : bool
}.

(** Return the expected symlink for the given repository target. *)
Definition _target_to_name (self : Repository) (target : path) : path :=
  let relpath := bestrelpath (repodir self) target in
  if dot self then join (homedir self) relpath
  else join (homedir self) (String.append "." relpath).

(** Return the expected repository target for the given symlink. *)
Definition _name_to_target (self : Repository) (name : path) : path :=
  let relpath := bestrelpath (homedir self) name in
  if dot self then join (repodir self) relpath
  else join (repodir self) (Str.drop1 relpath).


(** ['%s/*' % root] *)
Definition below_pattern (root : path) : string :=
  String.append (strpath root) "/*".

(* ================================================================== *)
(** ** The file system *)

Module FS.

#[local] Unset Elimination Schemes.

Inductive node : Type :=
| File
| Dir (entries : list (string * node)).

#[local] Set Elimination Schemes.

(** What the file-system calls of [py.path.local] raise.  [OutOfFuel] is
    not an error of the program: it ends a traversal of the model that
    was given too little fuel, which the traversals below never are. *)
Inductive exn : Type :=
| ENOENT (p : path)
| ENOTDIR (p : path)
| EBUSY (p : path)
| OutOfFuel.

Fixpoint assoc (nm : string) (es : list (string * node)) : option node :=
  match es with
  | [] => None
  | (k, c) :: es' => if String.eqb nm k then Some c else assoc nm es'
  end.

(** The node a path leads to, from the root [n]. *)
Fixpoint lookup (n : node) (p : path) : option node :=
  match p with
  | [] => Some n
  | nm :: p' =>
      match n with
      | Dir es =>
          match assoc nm es with
          | Some c => lookup c p'
          | None => None
          end
      | File => None
      end
  end.

Definition is_dir (n : node) : bool :=
  match n with
  | Dir _ => true
  | File => false
  end.

(** [p.check(dir=1)]: [os.path.isdir] *)
Definition check_dir (fs : node) (p : path) : bool :=
  match lookup fs p with
  | Some n => is_dir n
  | None => false
  end.

(** [p.check(dir=0)]: [not os.path.isdir], true of a missing path too *)
Definition check_nodir (fs : node) (p : path) : bool :=
  negb (check_dir fs p).

(** [p.listdir()] *)
Definition listdir (fs : node) (p : path) : result exn (list path) :=
  match lookup fs p with
  | Some (Dir es) => Ok (map (fun e => p ++ [fst e]) es)
  | Some File => Raise (ENOTDIR p)
  | None => Raise (ENOENT p)
  end.

(** The entries without those called [nm]. *)
Definition delete (nm : string) (es : list (string * node))
  : list (string * node) :=
  filter (fun e => negb (String.eqb nm (fst e))) es.

(** The entries with [f] applied to the first one called [nm]. *)
Fixpoint alter (f : node -> node) (nm : string) (es : list (string * node))
  : list (string * node) :=
  match es with
  | [] => []
  | (k, c) :: es' =>
      if String.eqb nm k then (k, f c) :: es' else (k, c) :: alter f nm es'
  end.

(** The tree with [f] applied to the node at [p]. *)
Fixpoint update_at (f : node -> node) (p : path) (n : node) : node :=
  match p with
  | [] => f n
  | nm :: p' =>
      match n with
      | Dir es => Dir (alter (update_at f p') nm es)
      | File => File
      end
  end.

Definition drop_entry (nm : string) (n : node) : node :=
  match n with
  | Dir es => Dir (delete nm es)
  | File => File
  end.

(** [p.remove()]: [shutil.rmtree] of a directory, [os.remove] of a file;
    the entry leaves its parent directory with all that is below it. *)
Definition remove (fs : node) (p : path) : result exn node :=
  match p with
  | [] => Raise (EBUSY p)
  | _ :: _ =>
      match lookup fs p with
      | Some _ => Ok (update_at (drop_entry (basename p)) (removelast p) fs)
      | None => Raise (ENOENT p)
      end
  end.

Fixpoint height (n : node) : nat :=
  match n with
  | File => 0
  | Dir es => S (fold_right (fun e m => Nat.max (height (snd e)) m) 0 es)
  end.

Fixpoint nodupb (l : list string) : bool :=
  match l with
  | [] => true
  | x :: l' => negb (Str.mem x l') && nodupb l'
  end.

(** Every directory names each entry once, by a name an entry can
    have. *)
Fixpoint wf (n : node) : bool :=
  match n with
  | File => true
  | Dir es =>
      nodupb (map fst es)
      && forallb (fun e => valid_name (fst e) && wf (snd e)) es
  end.

End FS.

Import FS.

(* ================================================================== *)
(** ** [py.path.local.visit] *)

Section Visit.

(** The state the consumer of the generator works on, and the file
    system as it is in that state. *)
Variable St : Type.
Variable fs_of : St -> node.

(** [fil], [rec]: the filter and the recursion predicate given to
    [visit]; [body]: what the consumer does with a yielded path before it
    asks for the next one. *)
Variable fil : node -> path -> bool.
Variable rec : node -> path -> bool.
Variable body : St -> path -> result exn St.

(** [Visitor.gen], depth first and unsorted, together with the loop that
    consumes it: the entries and the directories to descend into are
    listed on entry; the generator first yields what the directories
    yield, then the entries that pass [fil], and [fil] looks at the file
    system as the consumer has left it by then. *)
Fixpoint gen (fuel : nat) (s : St) (p : path) : result exn St :=
  match fuel with
  | O => Raise OutOfFuel
  | S fuel' =>
      entries <- listdir (fs_of s) p ;;
      let dirs :=
        filter (fun q => check_dir (fs_of s) q && rec (fs_of s) q) entries in
      s1 <- foldM (gen fuel') dirs s ;;
      foldM (fun s q => if fil (fs_of s) q then body s q else Ok s)
            entries s1
  end.

End Visit.

Arguments gen {St} fs_of fil rec body fuel s p.

(* ================================================================== *)
(** ** [Repository]: validation *)

(** Modelled from the spec: [dotfiles/exceptions.py] is not among the
    sources.  The four validation failures [_dotfile] raises, each a
    [DotfileException] carrying the offending path. *)
Inductive DotfileException : Type :=
| NotRootedInHome (p : path)
| InRepository (p : path)
| TargetIgnored (p : path)
| IsDirectory (p : path).

(** Modelled from the spec: [dotfiles/dotfile.py] is not among the sources.
    The value pairing a home-side [name] with its repository-side
    [target]. *)
Record Dotfile : Type := {
  name : path;
  target : path
}.

(** Return a valid dotfile for the given path. *)
Definition _dotfile (self : Repository) (fs : node) (name : path)
  : result DotfileException Dotfile :=
  let target := _name_to_target self name in
  raise_if (negb (path_fnmatch name (below_pattern (homedir self))))
           (NotRootedInHome name) ;;;
  raise_if (path_fnmatch name (below_pattern (repodir self)))
           (InRepository name) ;;;
  raise_if (Str.mem (basename target) (ignore self))
           (TargetIgnored name) ;;;
  raise_if (check_dir fs name)
           (IsDirectory name) ;;;
  Ok {| name := name; target := target |}.

(* ================================================================== *)
(** ** [Repository]: traversal *)

(** [filter] and [recurse] of [_contents] *)
Definition contents_filter (self : Repository) (fs : node) (node : path)
  : bool :=
  check_nodir fs node && negb (Str.mem (basename node) (ignore self)).

Definition recurse (self : Repository) (fs : node) (node : path) : bool :=
  negb (Str.mem (basename node) (ignore self)).

(** Return all unignored files contained below a directory.  The callers
    run the generator to its end without touching the file system, so the
    state is the list of paths yielded so far. *)
Definition _contents (self : Repository) (fs : node) (dir : path)
  : result exn (list path) :=
  gen (fun _ => fs) (contents_filter self) (recurse self)
      (fun acc q => Ok (acc ++ [q]))
      (S (height fs)) [] dir.

(** [paths.remove(path)]: the list without the first item equal to
    [path]. *)
Fixpoint list_remove (x : path) (l : list path) : list path :=
  match l with
  | [] => []
  | y :: l' => if Path.eqb x y then l' else y :: list_remove x l'
  end.

Section Dotfiles.

Variable self : Repository.
Variable fs : node.

(** The loop [for path in paths] of [dotfiles], which changes the list it
    runs over: the list iterator holds an index [i], and stops when the
    index has reached the end of the list as it is by then. *)
Fixpoint expand (fuel : nat) (i : nat) (paths : list path)
  : result exn (list path) :=
  match fuel with
  | O => Raise OutOfFuel
  | S fuel' =>
      match nth_error paths i with
      | None => Ok paths
      | Some path =>
          if check_dir fs path then
            found <- _contents self fs path ;;
            expand fuel' (S i) (list_remove path (paths ++ found))
          else expand fuel' (S i) paths
      end
  end.

(** Rounds the loop cannot exceed: one per path, and for a directory one
    more per path found below it. *)
Definition rounds (paths : list path) : nat :=
  S (length paths
     + list_sum (map (fun p =>
                        if check_dir fs p then
                          match _contents self fs p with
                          | Ok found => S (length found)
                          | Raise _ => 0
                          end
                        else 0) paths)).

(** [construct] of [dotfiles]: the dotfile, or [None] next to the
    exception handed to [echo]. *)
Definition construct_dotfile (path : path)
  : option Dotfile * list DotfileException :=
  match _dotfile self fs path with
  | Ok d => (Some d, [])
  | Raise err => (None, [err])
  end.

(** [dotfiles] from its second line on: [paths] is the list that
    [list(set(...))] made.  The result is the returned list and what was
    echoed, in order. *)
Definition dotfiles_from (paths : list path)
  : result exn (list Dotfile * list DotfileException) :=
  paths <- expand (rounds paths) 0 paths ;;
  let made := map construct_dotfile paths in
  Ok (flat_map (fun r => match fst r with
                         | Some d => [d]
                         | None => []
                         end) made,
      flat_map snd made).

End Dotfiles.

(** [list(set(map(py.path.local, paths)))]: each path of the input once, in
    the order the set happens to hand them out. *)
Definition set_listing (input listed : list path) : Prop :=
  NoDup listed /\ forall p, In p listed <-> In p input.

(** Return a collection of dotfiles given a list of paths. *)
Definition dotfiles (self : Repository) (fs : node) (input : list path)
  (out : result exn (list Dotfile * list DotfileException)) : Prop :=
  exists listed, set_listing input listed /\ dotfiles_from self fs listed = out.

(** [sorted(l, key=attrgetter('name'))]: paths compare as their strings do;
    the sort is stable. *)
Definition name_le (a b : Dotfile) : bool :=
  String.leb (strpath (name a)) (strpath (name b)).

Fixpoint insert (d : Dotfile) (l : list Dotfile) : list Dotfile :=
  match l with
  | [] => [d]
  | e :: l' => if name_le d e then d :: l else e :: insert d l'
  end.

Definition sorted (l : list Dotfile) : list Dotfile :=
  fold_right insert [] l.

(** [construct] of [contents] *)
Definition construct_target (self : Repository) (target : path) : Dotfile :=
  {| name := _target_to_name self target; target := target |}.

(** Return a list of dotfiles for each file in the repository. *)
Definition contents (self : Repository) (fs : node)
  : result exn (list Dotfile) :=
  found <- _contents self fs (repodir self) ;;
  Ok (sorted (map (construct_target self) found)).

(** [filter] of [prune]; its [recurse] is that of [_contents]. *)
Definition prune_filter (self : Repository) (fs : node) (node : path)
  : bool :=
  check_dir fs node && negb (Str.mem (basename node) (ignore self)).

(** The body of the loop of [prune]. *)
Definition prune_body (fs : node) (dir : path) : result exn node :=
  l <- listdir fs dir ;;
  if Nat.eqb (length l) 0 then remove fs dir else Ok fs.

(** Remove any empty directories in the repository. *)
Definition prune (self : Repository) (fs : node) : result exn node :=
  gen (fun fs => fs) (prune_filter self) (recurse self) prune_body
      (S (height fs)) fs (repodir self).

(** The paths [_contents] is shown to yield below a directory, by
    recursion on the tree: first what the entries that are not ignored
    hold, then the entries that are not directories and not ignored. *)
Fixpoint files_below (ign : list string) (base : path) (n : node)
  : list path :=
  match n with
  | File => []
  | Dir es =>
      flat_map (fun e => let '(nm, c) := e in
                         if Str.mem nm ign then []
                         else files_below ign (base ++ [nm]) c) es
      ++ flat_map (fun e => if is_dir (snd e) || Str.mem (fst e) ign then []
                            else [base ++ [fst e]]) es
  end.

(** The tree [prune] is shown to leave behind, by recursion on the tree:
    below a directory, the entries that are not ignored are pruned first,
    then those of them that are directories without entries go. *)
Definition prunable (ign : list string) (e : string * node) : bool :=
  negb (Str.mem (fst e) ign)
  && match snd e with
     | Dir [] => true
     | _ => false
     end.

Fixpoint pruned (ign : list string) (n : node) : node :=
  match n with
  | File => File
  | Dir es =>
      Dir (filter (fun e => negb (prunable ign e))
             (map (fun e => (fst e,
                             if Str.mem (fst e) ign then snd e
                             else pruned ign (snd e)))
                  es))
  end.

(** What pruning makes of an entry before the test for emptiness. *)
Definition prune_entry (ign : list string) (e : string * node)
  : string * node :=
  (fst e, if Str.mem (fst e) ign then snd e else pruned ign (snd e)).

(** [rel] leads from [n] to [d] through names that are not ignored. *)
Inductive reaches (ign : list string) : node -> list string -> node -> Prop :=
| reaches_here n : reaches ign n [] n
| reaches_down es nm c rel d :
    assoc nm es = Some c ->
    Str.mem nm ign = false ->
    reaches ign c rel d ->
    reaches ign (Dir es) (nm :: rel) d.

(* ================================================================== *)
(** ** Notions the properties are stated with *)

Definition no_sep (l : list string) : Prop :=
  Forall (fun s => Str.has_sep s = false) l.

(** Lists of names an entry can have. *)
Definition valid_rel (rel : list string) : bool := forallb valid_name rel.

(** The first component of a home-relative path is a dot followed by a name
    an entry can have. *)
Definition dotted (rel : list string) : Prop :=
  exists s rest, rel = String "." s :: rest /\ valid_name s = true.

(** A home directory with the repository inside it, without the dot
    convention. *)
Definition plain_repo : Repository :=
  {| repodir := ["home"; "user"; "repo"];
     homedir := ["home"; "user"];
     ignore := [];
     dot := false |}.

(** The containment test of [_dotfile]: [name.fnmatch('%s/*' % root)]. *)
Definition inside (root name : path) : bool :=
  path_fnmatch name (below_pattern root).

(** A home directory that holds the repository, a directory and files. *)
Definition home_repo : Repository :=
  {| repodir := ["home"; "user"; "repo"];
     homedir := ["home"; "user"];
     ignore := ["b"; ".git"];
     dot := true |}.

Definition home_fs : node :=
  Dir [("home",
        Dir [("user",
              Dir [("repo", Dir [("vimrc", File)]);
                   ("dir",
                    Dir [("a", File); ("b", File); ("c", Dir [("d", File)])]);
                   ("dir2", Dir [("x", File)])])])].

(** A repository that is not below the home directory. *)
Definition outside_repo : Repository :=
  {| repodir := ["srv"; "dotfiles"];
     homedir := ["home"; "user"];
     ignore := [];
     dot := true |}.

Definition outside_fs : node :=
  Dir [("home", Dir [("user", Dir [])]);
       ("srv", Dir [("dotfiles", Dir [("vimrc", File)])])].


(** Dotfiles in the order of their names. *)
Definition by_name (l : list Dotfile) : Prop :=
  Sorted (fun a b => name_le a b = true) l.

(** A repository that holds the files [z], [a] and [m], listed in that
    order. *)
Definition zam_fs : node :=
  Dir [("home",
        Dir [("user",
              Dir [("repo", Dir [("z", File); ("a", File); ("m", File)])])])].

(** The dotfiles of the paths that pass [_dotfile], and the exceptions of
    those that do not, each in the order of the paths. *)
Definition validated (self : Repository) (fs : node) (paths : list path)
  : list Dotfile :=
  flat_map (fun p => match _dotfile self fs p with
                     | Ok d => [d]
                     | Raise _ => []
                     end) paths.

Definition echoed (self : Repository) (fs : node) (paths : list path)
  : list DotfileException :=
  flat_map (fun p => match _dotfile self fs p with
                     | Ok _ => []
                     | Raise err => [err]
                     end) paths.

(** Paths of [home_fs]: two directories, and the files below the first. *)
Definition dir1 : path := ["home"; "user"; "dir"].
Definition dir2 : path := ["home"; "user"; "dir2"].
Definition dir1_a : path := ["home"; "user"; "dir"; "a"].
Definition dir1_b : path := ["home"; "user"; "dir"; "b"].
Definition dir1_c_d : path := ["home"; "user"; "dir"; "c"; "d"].
Definition dir2_x : path := ["home"; "user"; "dir2"; "x"].

(** The dotfile [home_repo] makes of a path below its home directory. *)
Definition tracked (rel : list string) : Dotfile :=
  {| name := homedir home_repo ++ rel; target := repodir home_repo ++ rel |}.

(** The tree with the node at [p] replaced by [d]. *)
Definition graft (d : node) (p : path) (fs : node) : node :=
  update_at (fun _ => d) p fs.

(** A repository that ignores [.git]; file systems in which it holds two
    nested empty directories, and in which it also holds a [.git] directory
    with an empty directory inside, an ignored directory that is empty and
    a directory that holds a file. *)
Definition git_repo : Repository :=
  {| repodir := ["home"; "user"; "repo"];
     homedir := ["home"; "user"];
     ignore := [".git"; "cache"];
     dot := true |}.

Definition in_home (repo : list (string * node)) : node :=
  Dir [("home", Dir [("user", Dir [("repo", Dir repo)])])].

Definition nested_fs : node :=
  in_home [("empty1", Dir [("empty2", Dir [])])].

Definition git_fs : node :=
  in_home [("empty1", Dir [("empty2", Dir [])]);
           (".git", Dir [("objects", Dir [])]);
           ("cache", Dir []);
           ("vim", Dir [("vimrc", File); ("undo", Dir [])])].

(** No character of [s] means anything to [fnmatch]. *)
Fixpoint glob_free (s : string) : bool :=
  match s with
  | EmptyString => true
  | String c s' =>
      negb (Ascii.eqb c "*" || Ascii.eqb c "?" || Ascii.eqb c "[")
      && glob_free s'
  end.

(** [name] lies below [root]: it is [root] followed by further
    components. *)
Definition below (root name : path) : Prop :=
  exists rel, rel <> [] /\ name = root ++ rel.

(** What [prune] makes of [git_fs]. *)
Definition git_fs_pruned : node :=
  in_home [(".git", Dir [("objects", Dir [])]);
           ("cache", Dir []);
           ("vim", Dir [("vimrc", File)])].

(** [zam_fs] with the files of the repository listed in another order. *)
Definition maz_fs : node :=
  Dir [("home",
        Dir [("user",
              Dir [("repo", Dir [("m", File); ("a", File); ("z", File)])])])].

(* ================================================================== *)
(** ** [Repository.__init__] *)

(** The errors of [os.mkdir]: [EEXIST] besides those met above. *)
Inductive oserror : Type :=
| EEXIST (p : path)
| Errno (e : exn).

Definition add_entry (nm : string) (n : node) : node :=
  match n with
  | Dir es => Dir (es ++ [(nm, Dir [])])
  | File => File
  end.

(** [p.mkdir()]: [os.mkdir]; the new directory is listed last. *)
Definition mkdir (fs : node) (p : path) : result oserror node :=
  match lookup fs p with
  | Some _ => Raise (EEXIST p)
  | None =>
      match lookup fs (removelast p) with
      | Some (Dir _) =>
          Ok (update_at (add_entry (basename p)) (removelast p) fs)
      | Some File => Raise (Errno (ENOTDIR p))
      | None => Raise (Errno (ENOENT p))
      end
  end.

(** [self._ensuredirs()] of [py.path.local]; [depth] is the number of
    components of [self], so that [parent == self], which is true of the
    root only, is [depth = 0]. *)
Fixpoint ensuredirs (depth : nat) (fs : node) (self : path)
  : result oserror node :=
  match depth with
  | O => Ok fs
  | S depth' =>
      let parent := removelast self in
      fs <- (if check_nodir fs parent then ensuredirs depth' fs parent
             else Ok fs) ;;
      if check_nodir fs self then
        match mkdir fs self with
        | Raise (EEXIST q) =>
            if check_nodir fs self then Raise (EEXIST q) else Ok fs
        | made => made
        end
      else Ok fs
  end.

(** [p.ensure_dir()] *)
Definition ensure_dir (fs : node) (p : path) : result oserror node :=
  ensuredirs (length p) fs p.

(** [Repository(repodir, homedir, ignore, dot)]: the repository and the
    file system as [ensure_dir] leaves it. *)
Definition __init__ (fs : node) (repodir homedir : path)
  (ignore : list string) (dot : bool) : result oserror (Repository * node) :=
  fs' <- ensure_dir fs repodir ;;
  Ok ({| repodir := repodir; homedir := homedir; ignore := ignore;
         dot := dot |}, fs').

(** Whether a path is a directory, a file or missing. *)
Definition kind (fs : node) (q : path) : option bool :=
  option_map is_dir (lookup fs q).

(** [fs'] is [fs] with [p] made a directory: [p] is a directory of [fs'];
    [fs'] is [fs] when [p] was a directory already; [p] is empty when it
    was missing; and every other path is what it was, except that missing
    ancestors of [p] have become directories. *)
Definition ensured (p : path) (fs fs' : node) : Prop :=
  check_dir fs' p = true
  /\ (check_dir fs p = true -> fs' = fs)
  /\ (lookup fs p = None -> lookup fs' p = Some (Dir []))
  /\ forall q,
      kind fs' q = kind fs q
      \/ (lookup fs q = None /\ check_dir fs' q = true
          /\ exists rel, p = q ++ rel).

(** Some ancestor of [p], or [p] itself, is a file. *)
Definition blocked (fs : node) (p : path) : Prop :=
  exists q rel, p = q ++ rel /\ lookup fs q = Some File.

(** A home directory in which a file is in the way of [repo/sub]. *)
Definition file_fs : node :=
  Dir [("home", Dir [("user", Dir [("repo", File)])])].

Definition bare_fs : node :=
  Dir [("home", Dir [("user", Dir [])])].


(** A root the containment test of [_dotfile] is meant for: not [/], its
    string without a character that means something to [fnmatch], its
    components without a slash. *)
Definition plain_root (root : path) : Prop :=
  root <> [] /\ glob_free (strpath root) = true /\ no_sep root.




(* ================================================================== *)
(** * Properties *)

(** ** Strings and paths *)

Lemma split_nonempty (s : string) : Str.split s <> [].
Proof.
  destruct s as [|c s]; simpl; [discriminate|].
  destruct (Ascii.eqb c Str.sep); [discriminate|].
  destruct (Str.split s); discriminate.
Qed.

Lemma split_no_sep (s : string) :
  Str.has_sep s = false -> Str.split s = [s].
Proof.
  induction s as [|c s IH]; simpl; [reflexivity|].
  destruct (Ascii.eqb c Str.sep); simpl; [discriminate|].
  intros H. rewrite (IH H). reflexivity.
Qed.

Lemma split_app_sep (x r : string) :
  Str.has_sep x = false ->
  Str.split (String.append x (String Str.sep r)) = x :: Str.split r.
Proof.
  induction x as [|c x IH]; simpl; intros H.
  - reflexivity.
  - destruct (Ascii.eqb c Str.sep); simpl in *; [discriminate|].
    rewrite (IH H). reflexivity.
Qed.

Lemma split_concat (l : list string) :
  no_sep l -> l <> [] -> Str.split (String.concat "/" l) = l.
Proof.
  induction l as [|x l IH]; intros Hl Hne; [congruence|].
  inversion Hl as [|? ? Hx Hl']; subst.
  destruct l as [|y l].
  - simpl. apply split_no_sep; assumption.
  - change (String.concat "/" (x :: y :: l))
      with (String.append x (String Str.sep (String.concat "/" (y :: l)))).
    rewrite split_app_sep by assumption.
    rewrite IH; [reflexivity | assumption | discriminate].
Qed.

Lemma valid_name_spec (s : string) :
  valid_name s = true
  <-> s <> "" /\ s <> "." /\ s <> ".." /\ Str.has_sep s = false.
Proof.
  unfold valid_name.
  rewrite !andb_true_iff, !negb_true_iff, !String.eqb_neq. tauto.
Qed.

Lemma valid_name_no_sep (s : string) :
  valid_name s = true -> Str.has_sep s = false.
Proof. intros H. apply valid_name_spec in H. tauto. Qed.

Lemma valid_rel_no_sep (rel : list string) :
  valid_rel rel = true -> no_sep rel.
Proof.
  unfold valid_rel, no_sep. rewrite forallb_forall, Forall_forall.
  intros H s Hs. apply valid_name_no_sep, H, Hs.
Qed.

Lemma norm_step_valid (st : path) (s : string) :
  valid_name s = true -> norm_step st s = st ++ [s].
Proof.
  intros H. apply valid_name_spec in H. destruct H as (H1 & H2 & H3 & _).
  unfold norm_step.
  apply String.eqb_neq in H1, H2, H3. rewrite H1, H2, H3. reflexivity.
Qed.

Lemma fold_norm_step_valid (rel : list string) (st : path) :
  valid_rel rel = true -> fold_left norm_step rel st = st ++ rel.
Proof.
  revert st. induction rel as [|s rel IH]; intros st H; simpl.
  - rewrite app_nil_r. reflexivity.
  - simpl in H. apply andb_true_iff in H. destruct H as [Hs Hrel].
    rewrite norm_step_valid by assumption.
    rewrite IH by assumption. rewrite <- app_assoc. reflexivity.
Qed.

Lemma join_concat (p : path) (rel : list string) :
  valid_rel rel = true -> join p (String.concat "/" rel) = p ++ rel.
Proof.
  intros H. unfold join. destruct rel as [|s rel].
  - simpl. rewrite app_nil_r. reflexivity.
  - rewrite split_concat; [| apply valid_rel_no_sep; assumption | discriminate].
    apply fold_norm_step_valid; assumption.
Qed.

Lemma path_eqb_refl (p : path) : Path.eqb p p = true.
Proof.
  induction p as [|x p IH]; simpl; [reflexivity|].
  rewrite String.eqb_refl. exact IH.
Qed.

Lemma path_eqb_eq (p q : path) : Path.eqb p q = true <-> p = q.
Proof.
  revert q. induction p as [|x p IH]; intros [|y q]; simpl;
    try (split; [discriminate | congruence]); [tauto|].
  rewrite andb_true_iff, String.eqb_eq, IH.
  split; [intros [-> ->]; reflexivity | intros H; inversion H; auto].
Qed.

Lemma path_eqb_app (p x : path) : x <> [] -> Path.eqb p (p ++ x) = false.
Proof.
  intros Hx. destruct (Path.eqb p (p ++ x)) eqn:E; [|reflexivity].
  apply path_eqb_eq in E. exfalso. apply Hx.
  rewrite <- (app_nil_r p) in E at 1. apply app_inv_head in E. congruence.
Qed.

Lemma strip_common_app (p x : path) : strip_common p (p ++ x) = ([], x).
Proof.
  induction p as [|a p IH]; simpl.
  - destruct x; reflexivity.
  - rewrite String.eqb_refl. exact IH.
Qed.

Lemma bestrelpath_below (p x : path) :
  x <> [] -> bestrelpath p (p ++ x) = String.concat "/" x.
Proof.
  intros Hx. unfold bestrelpath.
  rewrite path_eqb_app by assumption.
  rewrite strip_common_app.
  destruct x; [congruence | reflexivity].
Qed.

Lemma bestrelpath_self (p : path) : bestrelpath p p = ".".
Proof. unfold bestrelpath. rewrite path_eqb_refl. reflexivity. Qed.

Lemma strip_common_parent (p : path) (a : string) :
  strip_common (p ++ [a]) p = ([a], []).
Proof.
  induction p as [|b p IH]; simpl; [reflexivity|].
  rewrite String.eqb_refl. exact IH.
Qed.

Lemma bestrelpath_parent (p : path) (a : string) :
  bestrelpath (p ++ [a]) p = "..".
Proof.
  unfold bestrelpath.
  assert (E : Path.eqb (p ++ [a]) p = false).
  { destruct (Path.eqb (p ++ [a]) p) eqn:E; [|reflexivity].
    apply path_eqb_eq in E. apply (f_equal (@length _)) in E.
    rewrite length_app in E. simpl in E. lia. }
  rewrite E, strip_common_parent. reflexivity.
Qed.

Lemma concat_dot_head (s : string) (rest : list string) :
  String.append "." (String.concat "/" (s :: rest))
  = String.concat "/" (String "." s :: rest).
Proof. destruct rest; reflexivity. Qed.

Lemma valid_name_dotted (s : string) :
  valid_name s = true -> valid_name (String "." s) = true.
Proof.
  rewrite !valid_name_spec. intros (H1 & H2 & H3 & H4).
  repeat split; try congruence. simpl. exact H4.
Qed.

(** ** Path mapping *)

Lemma join_dot (p : path) : join p "." = p.
Proof. reflexivity. Qed.

Lemma join_empty (p : path) : join p "" = p.
Proof. reflexivity. Qed.

Lemma join_dotdot (p : path) : join p ".." = removelast p.
Proof. reflexivity. Qed.

Lemma drop1_concat (c : ascii) (s : string) (rest : list string) :
  Str.drop1 (String.concat "/" (String c s :: rest))
  = String.concat "/" (s :: rest).
Proof. destruct rest; reflexivity. Qed.

Lemma target_to_name_below (self : Repository) (rel : list string) :
  valid_rel rel = true ->
  _target_to_name self (repodir self ++ rel)
  = if dot self then homedir self ++ rel
    else match rel with
         | [] => removelast (homedir self)
         | s :: rest => homedir self ++ String "." s :: rest
         end.
Proof.
  intros H. unfold _target_to_name. destruct rel as [|s rest].
  - rewrite !app_nil_r, bestrelpath_self. destruct (dot self); reflexivity.
  - rewrite bestrelpath_below by discriminate.
    destruct (dot self).
    + apply join_concat; assumption.
    + rewrite concat_dot_head. apply join_concat.
      simpl in *. apply andb_true_iff in H. destruct H as [Hs Hrest].
      rewrite (valid_name_dotted _ Hs). exact Hrest.
Qed.

Lemma name_to_target_below (self : Repository) (rel : list string) :
  valid_rel rel = true ->
  dot self = true ->
  _name_to_target self (homedir self ++ rel) = repodir self ++ rel.
Proof.
  intros H Hdot. unfold _name_to_target. rewrite Hdot.
  destruct rel as [|s rest].
  - rewrite !app_nil_r, bestrelpath_self. reflexivity.
  - rewrite bestrelpath_below by discriminate. apply join_concat; assumption.
Qed.

Lemma name_to_target_first_char (self : Repository) (c : ascii) (s : string)
  (rest : list string) :
  dot self = false ->
  _name_to_target self (homedir self ++ String c s :: rest)
  = join (repodir self) (String.concat "/" (s :: rest)).
Proof.
  intros Hdot. unfold _name_to_target. rewrite Hdot.
  rewrite bestrelpath_below by discriminate.
  rewrite drop1_concat. reflexivity.
Qed.

Lemma name_to_target_parent (self : Repository) :
  dot self = false ->
  _name_to_target self (removelast (homedir self)) = repodir self.
Proof.
  intros Hdot. unfold _name_to_target. rewrite Hdot.
  destruct (homedir self) as [|a h] eqn:E using rev_ind.
  - reflexivity.
  - rewrite removelast_last, bestrelpath_parent. reflexivity.
Qed.

Lemma repo_home_repo (self : Repository) (rel : list string) :
  valid_rel rel = true ->
  _name_to_target self (_target_to_name self (repodir self ++ rel))
  = repodir self ++ rel.
Proof.
  intros H. rewrite target_to_name_below by assumption.
  destruct (dot self) eqn:Hdot.
  - apply name_to_target_below; assumption.
  - destruct rel as [|s rest].
    + rewrite app_nil_r. apply name_to_target_parent; assumption.
    + rewrite name_to_target_first_char by assumption.
      apply join_concat; assumption.
Qed.

Lemma home_repo_home (self : Repository) (rel : list string) :
  valid_rel rel = true ->
  dot self = true \/ dotted rel ->
  _target_to_name self (_name_to_target self (homedir self ++ rel))
  = homedir self ++ rel.
Proof.
  intros H [Hdot | (s & rest & -> & Hs)].
  - rewrite name_to_target_below by assumption.
    rewrite target_to_name_below by assumption. rewrite Hdot. reflexivity.
  - destruct (dot self) eqn:Hdot.
    + rewrite name_to_target_below by assumption.
      rewrite target_to_name_below by assumption. rewrite Hdot. reflexivity.
    + simpl in H. apply andb_true_iff in H. destruct H as [_ Hrest].
      assert (Hv : valid_rel (s :: rest) = true)
        by (simpl; rewrite Hs; exact Hrest).
      rewrite name_to_target_first_char by assumption.
      rewrite join_concat by assumption.
      rewrite target_to_name_below by assumption. rewrite Hdot. reflexivity.
Qed.

(** C1, as the code has it: mapping a path at or below the repository to
    its home path and back gives the path again, for every configuration;
    the other way round, a path at or below the home directory comes back
    when the dot is preserved ([dot = True]) or when its first component is
    a dot followed by a name, which is what [_target_to_name] produces
    without the dot convention.  With [dot = False], [~/.bashrc] maps to
    [repo/bashrc] and back. *)
Theorem mapping_round_trip :
  (forall (self : Repository) (rel : list string),
      valid_rel rel = true ->
      _name_to_target self (_target_to_name self (repodir self ++ rel))
      = repodir self ++ rel)
  /\ (forall (self : Repository) (rel : list string),
         valid_rel rel = true ->
         dot self = true \/ dotted rel ->
         _target_to_name self (_name_to_target self (homedir self ++ rel))
         = homedir self ++ rel)
  /\ _name_to_target plain_repo ["home"; "user"; ".bashrc"]
     = ["home"; "user"; "repo"; "bashrc"]
  /\ _target_to_name plain_repo ["home"; "user"; "repo"; "bashrc"]
     = ["home"; "user"; ".bashrc"].
Proof.
  split; [exact repo_home_repo|].
  split; [exact home_repo_home|].
  split; reflexivity.
Qed.

Lemma mapping_round_trip_witness :
  valid_rel ["vim"; "vimrc"] = true
  /\ dotted [".vim"; "vimrc"]
  /\ _name_to_target plain_repo
       (_target_to_name plain_repo (repodir plain_repo ++ ["vim"; "vimrc"]))
     = repodir plain_repo ++ ["vim"; "vimrc"]
  /\ _target_to_name plain_repo
       (_name_to_target plain_repo (homedir plain_repo ++ [".vim"; "vimrc"]))
     = homedir plain_repo ++ [".vim"; "vimrc"].
Proof.
  assert (D : dotted [".vim"; "vimrc"]).
  { exists "vim", ["vimrc"]. split; reflexivity. }
  split; [reflexivity|]. split; [exact D|]. split.
  - apply (proj1 mapping_round_trip plain_repo ["vim"; "vimrc"]). reflexivity.
  - apply (proj1 (proj2 mapping_round_trip) plain_repo [".vim"; "vimrc"]).
    + reflexivity.
    + right. exact D.
Defined.

(** C1 as stated fails for home paths: without the dot convention the home
    path [~/afile] maps to [repo/file], which maps back to [~/.file]. *)
Lemma home_round_trip_fails :
  _target_to_name plain_repo
    (_name_to_target plain_repo ["home"; "user"; "afile"])
  <> ["home"; "user"; "afile"].
Proof. vm_compute. discriminate. Qed.

(** C9: without the dot convention [_name_to_target] drops the first
    character of the home-relative path whatever it is, so two home paths
    that differ in that character only have one target; [~/.file] and
    [~/afile] are such a pair. *)
Theorem name_to_target_not_injective :
  (forall (repo home : path) (ign : list string) (c : ascii) (s : string)
          (rest : list string),
      _name_to_target
        {| repodir := repo; homedir := home; ignore := ign; dot := false |}
        (home ++ String c s :: rest)
      = join repo (String.concat "/" (s :: rest)))
  /\ (forall (repo home : path) (ign : list string) (c c' : ascii)
             (s : string) (rest : list string),
         _name_to_target
           {| repodir := repo; homedir := home; ignore := ign; dot := false |}
           (home ++ String c s :: rest)
         = _name_to_target
             {| repodir := repo; homedir := home; ignore := ign; dot := false |}
             (home ++ String c' s :: rest))
  /\ ["home"; "user"; ".file"] <> ["home"; "user"; "afile"]
  /\ _name_to_target plain_repo ["home"; "user"; ".file"]
     = ["home"; "user"; "repo"; "file"]
  /\ _name_to_target plain_repo ["home"; "user"; "afile"]
     = ["home"; "user"; "repo"; "file"].
Proof.
  assert (F : forall repo home ign c s rest,
             _name_to_target
               {| repodir := repo; homedir := home; ignore := ign;
                  dot := false |}
               (home ++ String c s :: rest)
             = join repo (String.concat "/" (s :: rest))).
  { intros. apply (name_to_target_first_char
                     {| repodir := repo; homedir := home; ignore := ign;
                        dot := false |}). reflexivity. }
  split; [exact F|].
  split; [intros; rewrite !F; reflexivity|].
  split; [discriminate|].
  split; reflexivity.
Qed.

(** ** Validation *)

Lemma dotfile_cascade (self : Repository) (fs : node) (name : path) :
  _dotfile self fs name
  = if negb (inside (homedir self) name) then Raise (NotRootedInHome name)
    else if inside (repodir self) name then Raise (InRepository name)
    else if Str.mem (basename (_name_to_target self name)) (ignore self)
         then Raise (TargetIgnored name)
    else if check_dir fs name then Raise (IsDirectory name)
    else Ok {| name := name; target := _name_to_target self name |}.
Proof.
  unfold _dotfile, inside, raise_if, bind.
  destruct (path_fnmatch name (below_pattern (homedir self))); simpl;
    [|reflexivity].
  destruct (path_fnmatch name (below_pattern (repodir self))); simpl;
    [reflexivity|].
  destruct (Str.mem _ _); simpl; [reflexivity|].
  destruct (check_dir fs name); reflexivity.
Qed.

(** The outcome of [_dotfile] by the outcome of its own tests, [inside]
    for the two directories: the first test that fails decides the
    exception, and when all four pass the dotfile of the path and its
    target is returned. *)
Lemma dotfile_checks_in_order :
  forall (self : Repository) (fs : node) (name : path),
    (inside (homedir self) name = false ->
     _dotfile self fs name = Raise (NotRootedInHome name))
    /\ (inside (homedir self) name = true ->
        inside (repodir self) name = true ->
        _dotfile self fs name = Raise (InRepository name))
    /\ (inside (homedir self) name = true ->
        inside (repodir self) name = false ->
        Str.mem (basename (_name_to_target self name)) (ignore self) = true ->
        _dotfile self fs name = Raise (TargetIgnored name))
    /\ (inside (homedir self) name = true ->
        inside (repodir self) name = false ->
        Str.mem (basename (_name_to_target self name)) (ignore self) = false ->
        check_dir fs name = true ->
        _dotfile self fs name = Raise (IsDirectory name))
    /\ (inside (homedir self) name = true ->
        inside (repodir self) name = false ->
        Str.mem (basename (_name_to_target self name)) (ignore self) = false ->
        check_dir fs name = false ->
        _dotfile self fs name
        = Ok {| name := name; target := _name_to_target self name |}).
Proof.
  intros self fs name. rewrite dotfile_cascade.
  repeat split; intros;
    repeat match goal with
           | H : _ = true |- _ => rewrite H; clear H
           | H : _ = false |- _ => rewrite H; clear H
           end; reflexivity.
Qed.

Lemma dotfile_checks_in_order_witness :
  _dotfile home_repo home_fs ["srv"; "vimrc"]
  = Raise (NotRootedInHome ["srv"; "vimrc"])
  /\ _dotfile home_repo home_fs ["home"; "user"; "repo"; "vimrc"]
     = Raise (InRepository ["home"; "user"; "repo"; "vimrc"])
  /\ _dotfile home_repo home_fs ["home"; "user"; "dir"; "b"]
     = Raise (TargetIgnored ["home"; "user"; "dir"; "b"])
  /\ _dotfile home_repo home_fs ["home"; "user"; "dir"]
     = Raise (IsDirectory ["home"; "user"; "dir"])
  /\ _dotfile home_repo home_fs ["home"; "user"; "dir"; "a"]
     = Ok {| name := ["home"; "user"; "dir"; "a"];
             target := ["home"; "user"; "repo"; "dir"; "a"] |}.
Proof.
  split;
    [apply (proj1 (dotfile_checks_in_order home_repo home_fs _)); reflexivity|].
  split;
    [apply (proj1 (proj2 (dotfile_checks_in_order home_repo home_fs _)));
     reflexivity|].
  split;
    [apply (proj1 (proj2 (proj2
              (dotfile_checks_in_order home_repo home_fs _)))); reflexivity|].
  split;
    [apply (proj1 (proj2 (proj2 (proj2
              (dotfile_checks_in_order home_repo home_fs _)))));
     reflexivity|].
  apply (proj2 (proj2 (proj2 (proj2
           (dotfile_checks_in_order home_repo home_fs
              ["home"; "user"; "dir"; "a"]))))); reflexivity.
Defined.

(** A path the test [inside] finds in the repository: the test for the
    home directory comes first and decides between [InRepository] and
    [NotRootedInHome]. *)
Lemma dotfile_in_repository :
  forall (self : Repository) (fs : node) (name : path),
    inside (repodir self) name = true ->
    (inside (homedir self) name = true ->
     _dotfile self fs name = Raise (InRepository name))
    /\ (inside (homedir self) name = false ->
        _dotfile self fs name = Raise (NotRootedInHome name)).
Proof.
  intros self fs name Hrepo. rewrite dotfile_cascade.
  split; intros Hhome; rewrite Hhome; simpl; [rewrite Hrepo|]; reflexivity.
Qed.

Lemma dotfile_in_repository_witness :
  inside (repodir home_repo) ["home"; "user"; "repo"; "vimrc"] = true
  /\ inside (homedir home_repo) ["home"; "user"; "repo"; "vimrc"] = true
  /\ _dotfile home_repo home_fs ["home"; "user"; "repo"; "vimrc"]
     = Raise (InRepository ["home"; "user"; "repo"; "vimrc"]).
Proof.
  split; [reflexivity|]. split; [reflexivity|].
  apply (proj1 (dotfile_in_repository home_repo home_fs
                  ["home"; "user"; "repo"; "vimrc"] eq_refl)).
  reflexivity.
Defined.

(** C3 as stated fails: with the repository [/srv/dotfiles] outside the
    home directory [/home/user], the path [/srv/dotfiles/vimrc] is below
    the repository and [_dotfile] raises [NotRootedInHome] for it. *)
Lemma in_repository_outside_home :
  inside (repodir outside_repo) ["srv"; "dotfiles"; "vimrc"] = true
  /\ _dotfile outside_repo outside_fs ["srv"; "dotfiles"; "vimrc"]
     = Raise (NotRootedInHome ["srv"; "dotfiles"; "vimrc"])
  /\ _dotfile outside_repo outside_fs ["srv"; "dotfiles"; "vimrc"]
     <> Raise (InRepository ["srv"; "dotfiles"; "vimrc"]).
Proof.
  split; [reflexivity|]. split; [reflexivity|].
  vm_compute. discriminate.
Qed.

(** A missing path that passes the first three tests of [_dotfile], in
    terms of [inside], passes the fourth. *)
Lemma dotfile_of_missing_path :
  forall (self : Repository) (fs : node) (name : path),
    inside (homedir self) name = true ->
    inside (repodir self) name = false ->
    Str.mem (basename (_name_to_target self name)) (ignore self) = false ->
    lookup fs name = None ->
    _dotfile self fs name
    = Ok {| name := name; target := _name_to_target self name |}.
Proof.
  intros self fs name Hhome Hrepo Hign Hmiss.
  rewrite dotfile_cascade, Hhome, Hrepo, Hign. simpl.
  unfold check_dir. rewrite Hmiss. reflexivity.
Qed.

Lemma dotfile_of_missing_path_witness :
  lookup home_fs ["home"; "user"; ".nothing"] = None
  /\ _dotfile home_repo home_fs ["home"; "user"; ".nothing"]
     = Ok {| name := ["home"; "user"; ".nothing"];
             target := ["home"; "user"; "repo"; ".nothing"] |}.
Proof.
  split; [reflexivity|].
  apply (dotfile_of_missing_path home_repo home_fs
           ["home"; "user"; ".nothing"]); reflexivity.
Defined.

(** ** The file system *)

Lemma node_ind' (P : node -> Prop) :
  P File ->
  (forall es, Forall (fun e => P (snd e)) es -> P (Dir es)) ->
  forall n, P n.
Proof.
  intros HF HD.
  fix IH 1. intros [|es]; [exact HF|].
  apply HD. induction es as [|[nm c] es IHes]; constructor.
  - simpl. apply IH.
  - exact IHes.
Qed.

Lemma mem_In (x : string) (l : list string) :
  Str.mem x l = true <-> In x l.
Proof.
  induction l as [|y l IH]; simpl; [split; [discriminate | tauto]|].
  rewrite orb_true_iff, String.eqb_eq, IH. split; intros [H|H]; auto.
Qed.

Lemma assoc_In (nm : string) (es : list (string * node)) (c : node) :
  assoc nm es = Some c -> In (nm, c) es.
Proof.
  induction es as [|[k c0] es IH]; simpl; [discriminate|].
  destruct (String.eqb_spec nm k) as [->|Hne].
  - intros H. inversion H. auto.
  - auto.
Qed.

Lemma In_assoc (nm : string) (es : list (string * node)) (c : node) :
  nodupb (map fst es) = true -> In (nm, c) es -> assoc nm es = Some c.
Proof.
  induction es as [|[k c0] es IH]; simpl; [tauto|].
  rewrite andb_true_iff, negb_true_iff. intros [Hk Hnd] [H|H].
  - inversion H; subst. rewrite String.eqb_refl. reflexivity.
  - destruct (String.eqb_spec nm k) as [->|Hne]; [|auto].
    exfalso. assert (Str.mem k (map fst es) = true); [|congruence].
    apply mem_In. apply (in_map fst) in H. exact H.
Qed.

Lemma lookup_app (n : node) (p q : path) :
  lookup n (p ++ q)
  = match lookup n p with
    | Some m => lookup m q
    | None => None
    end.
Proof.
  revert n. induction p as [|nm p IH]; intros n; simpl; [reflexivity|].
  destruct n as [|es]; [reflexivity|].
  destruct (assoc nm es); [apply IH | reflexivity].
Qed.

Lemma lookup_child (fs : node) (p : path) (es : list (string * node))
  (nm : string) :
  lookup fs p = Some (Dir es) -> lookup fs (p ++ [nm]) = assoc nm es.
Proof.
  intros H. rewrite lookup_app, H. simpl. destruct (assoc nm es); reflexivity.
Qed.

Lemma height_child (es : list (string * node)) (nm : string) (c : node) :
  In (nm, c) es -> height c < height (Dir es).
Proof.
  simpl. induction es as [|e es IH]; simpl; [tauto|].
  intros [->|H]; simpl; [lia|]. specialize (IH H). lia.
Qed.

Lemma height_lookup (n : node) (p : path) (m : node) :
  lookup n p = Some m -> height m <= height n.
Proof.
  revert n. induction p as [|nm p IH]; intros n; simpl.
  - intros H. inversion H. lia.
  - destruct n as [|es]; [discriminate|].
    destruct (assoc nm es) as [c|] eqn:E; [|discriminate].
    intros H. apply IH in H. apply assoc_In, height_child in E. lia.
Qed.

Lemma wf_child (es : list (string * node)) (nm : string) (c : node) :
  wf (Dir es) = true -> In (nm, c) es -> valid_name nm = true /\ wf c = true.
Proof.
  simpl. rewrite andb_true_iff, forallb_forall. intros [_ H] Hin.
  specialize (H _ Hin). simpl in H. apply andb_true_iff in H. exact H.
Qed.

Lemma wf_nodup (es : list (string * node)) :
  wf (Dir es) = true -> nodupb (map fst es) = true.
Proof. simpl. rewrite andb_true_iff. tauto. Qed.

Lemma nodupb_NoDup (l : list string) : nodupb l = true <-> NoDup l.
Proof.
  induction l as [|x l IH]; simpl.
  - split; [constructor | reflexivity].
  - rewrite andb_true_iff, negb_true_iff, IH. split.
    + intros [Hx Hl]. constructor; [|exact Hl].
      intros Hin. apply mem_In in Hin. congruence.
    + intros H. inversion H as [|? ? Hx Hl]; subst. split; [|exact Hl].
      destruct (Str.mem x l) eqn:E; [|reflexivity].
      apply mem_In in E. contradiction.
Qed.

Lemma wf_Dir (es : list (string * node)) :
  wf (Dir es) = true
  <-> NoDup (map fst es)
      /\ forall nm c, In (nm, c) es -> valid_name nm = true /\ wf c = true.
Proof.
  simpl. rewrite andb_true_iff, nodupb_NoDup, forallb_forall. split.
  - intros [Hnd H]. split; [exact Hnd|]. intros nm c Hin.
    specialize (H _ Hin). simpl in H. apply andb_true_iff in H. exact H.
  - intros [Hnd H]. split; [exact Hnd|]. intros [nm c] Hin.
    simpl. apply andb_true_iff. apply H. exact Hin.
Qed.

Lemma wf_lookup (n : node) (p : path) (m : node) :
  wf n = true -> lookup n p = Some m -> wf m = true.
Proof.
  revert n. induction p as [|nm p IH]; intros n Hwf; simpl.
  - intros H. inversion H. subst. exact Hwf.
  - destruct n as [|es]; [discriminate|].
    destruct (assoc nm es) as [c|] eqn:E; [|discriminate].
    apply IH. apply assoc_In in E. apply (wf_child _ _ _ Hwf E).
Qed.

Lemma basename_snoc (p : path) (nm : string) : basename (p ++ [nm]) = nm.
Proof. unfold basename. apply last_last. Qed.

Lemma check_dir_child (fs : node) (p : path) (es : list (string * node))
  (nm : string) (c : node) :
  lookup fs p = Some (Dir es) ->
  nodupb (map fst es) = true ->
  In (nm, c) es ->
  check_dir fs (p ++ [nm]) = is_dir c.
Proof.
  intros Hp Hnd Hin. unfold check_dir.
  rewrite (lookup_child _ _ _ nm Hp), (In_assoc _ _ _ Hnd Hin). reflexivity.
Qed.

(** ** Loops *)

Lemma foldM_app {E St A} (f : St -> A -> result E St) (l1 l2 : list A)
  (s : St) :
  foldM f (l1 ++ l2) s = (s' <- foldM f l1 s ;; foldM f l2 s').
Proof.
  revert s. induction l1 as [|a l1 IH]; intros s; simpl; [reflexivity|].
  destruct (f s a); simpl; [apply IH | reflexivity].
Qed.

Lemma foldM_collect {E A} (keep : A -> bool) (l : list A) (acc : list A) :
  foldM (fun s q => if keep q then @Ok E _ (s ++ [q]) else Ok s) l acc
  = Ok (acc ++ filter keep l).
Proof.
  revert acc. induction l as [|a l IH]; intros acc; simpl.
  - rewrite app_nil_r. reflexivity.
  - destruct (keep a); simpl; rewrite IH; [rewrite <- app_assoc|]; reflexivity.
Qed.

(** ** [_contents] *)

Section ContentsFacts.

Variable self : Repository.
Variable fs : node.

Let walk :=
  gen (fun _ : list path => fs) (contents_filter self) (recurse self)
      (fun acc q => Ok (acc ++ [q])).

Lemma recurse_child (p : path) (nm : string) :
  recurse self fs (p ++ [nm]) = negb (Str.mem nm (ignore self)).
Proof. unfold recurse. rewrite basename_snoc. reflexivity. Qed.

Lemma contents_filter_child (p : path) (es : list (string * node))
  (nm : string) (c : node) :
  lookup fs p = Some (Dir es) ->
  nodupb (map fst es) = true ->
  In (nm, c) es ->
  contents_filter self fs (p ++ [nm])
  = negb (is_dir c || Str.mem nm (ignore self)).
Proof.
  intros Hp Hnd Hin. unfold contents_filter, check_nodir.
  rewrite (check_dir_child _ _ _ _ _ Hp Hnd Hin), basename_snoc.
  rewrite negb_orb. reflexivity.
Qed.

Lemma filter_entries (p : path) (es : list (string * node)) :
  lookup fs p = Some (Dir es) ->
  nodupb (map fst es) = true ->
  forall es', incl es' es ->
    filter (contents_filter self fs) (map (fun e => p ++ [fst e]) es')
    = flat_map (fun e => if is_dir (snd e) || Str.mem (fst e) (ignore self)
                         then [] else [p ++ [fst e]]) es'.
Proof.
  intros Hp Hnd. induction es' as [|[nm c] es' IH]; intros Hincl; simpl;
    [reflexivity|].
  rewrite (contents_filter_child _ _ _ _ Hp Hnd (Hincl _ (or_introl eq_refl))).
  rewrite IH by (intros x Hx; apply Hincl; right; exact Hx).
  destruct (is_dir c || Str.mem nm (ignore self)); reflexivity.
Qed.

Lemma gen_contents (fuel : nat) :
  forall (p : path) (es : list (string * node)) (acc : list path),
    lookup fs p = Some (Dir es) ->
    wf (Dir es) = true ->
    height (Dir es) <= fuel ->
    walk fuel acc p = Ok (acc ++ files_below (ignore self) p (Dir es)).
Proof.
  induction fuel as [|fuel IH]; intros p es acc Hp Hwf Hh.
  - simpl in Hh. lia.
  - pose proof (wf_nodup _ Hwf) as Hnd.
    unfold walk. simpl gen. unfold listdir. rewrite Hp. simpl bind.
    assert (P1 : forall es', incl es' es -> forall acc,
               foldM (walk fuel)
                 (filter (fun q => check_dir fs q && recurse self fs q)
                         (map (fun e => p ++ [fst e]) es')) acc
               = Ok (acc ++ flat_map
                       (fun e => let '(nm, c) := e in
                                 if Str.mem nm (ignore self) then []
                                 else files_below (ignore self)
                                        (p ++ [nm]) c) es')).
    { induction es' as [|[nm c] es' IHes]; intros Hincl acc0; simpl.
      - rewrite app_nil_r. reflexivity.
      - assert (Hin : In (nm, c) es) by (apply Hincl; left; reflexivity).
        assert (Hincl' : incl es' es)
          by (intros x Hx; apply Hincl; right; exact Hx).
        rewrite (check_dir_child _ _ _ _ _ Hp Hnd Hin), recurse_child.
        destruct c as [|ec]; simpl.
        + rewrite IHes by assumption.
          destruct (Str.mem nm (ignore self)); reflexivity.
        + destruct (Str.mem nm (ignore self)); simpl.
          * apply IHes; assumption.
          * rewrite (IH (p ++ [nm]) ec acc0).
            -- simpl bind. rewrite IHes by assumption.
               rewrite <- app_assoc. reflexivity.
            -- rewrite (lookup_child _ _ _ nm Hp). apply In_assoc; assumption.
            -- apply (wf_child _ _ _ Hwf Hin).
            -- pose proof (height_child _ _ _ Hin). lia. }
    fold walk. rewrite (P1 es (incl_refl es) acc). simpl bind.
    rewrite (@foldM_collect exn path (contents_filter self fs)).
    rewrite (filter_entries _ _ Hp Hnd _ (incl_refl es)).
    simpl files_below. rewrite app_assoc. reflexivity.
Qed.

(** [_contents] returns, for every directory of a well-formed file
    system. *)
Lemma contents_below (dir : path) (es : list (string * node)) :
  wf fs = true ->
  lookup fs dir = Some (Dir es) ->
  _contents self fs dir = Ok (files_below (ignore self) dir (Dir es)).
Proof.
  intros Hwf Hp. unfold _contents. fold walk.
  rewrite (gen_contents (S (height fs)) dir es [] Hp); [reflexivity| |].
  - apply (wf_lookup _ _ _ Hwf Hp).
  - pose proof (height_lookup _ _ _ Hp). lia.
Qed.

End ContentsFacts.

Lemma reaches_iff (ign : list string) (n : node) (rel : list string)
  (d : node) :
  reaches ign n rel d
  <-> lookup n rel = Some d
      /\ Forall (fun nm => Str.mem nm ign = false) rel.
Proof.
  split.
  - induction 1 as [n|es nm c rel d Ha Hm _ [IH1 IH2]]; simpl.
    + split; [reflexivity | constructor].
    + rewrite Ha. split; [exact IH1 | constructor; assumption].
  - revert n. induction rel as [|nm rel IH]; intros n [Hl Hf]; simpl in Hl.
    + inversion Hl. constructor.
    + destruct n as [|es]; [discriminate|].
      destruct (assoc nm es) as [c|] eqn:E; [|discriminate].
      inversion Hf; subst.
      apply reaches_down with (c := c); auto.
Qed.

Lemma reaches_from_file (ign : list string) (rel : list string) (d : node) :
  reaches ign File rel d -> rel = [] /\ d = File.
Proof. inversion 1; auto. Qed.

Lemma files_below_spec (ign : list string) (n : node) :
  wf n = true ->
  forall (base e : path),
    In e (files_below ign base n)
    <-> exists rel, rel <> [] /\ e = base ++ rel /\ reaches ign n rel File.
Proof.
  induction n as [|es IH] using node_ind'; intros Hwf base e.
  - simpl. split; [tauto|].
    intros (rel & Hne & _ & Hr). apply reaches_from_file in Hr. tauto.
  - pose proof (wf_nodup _ Hwf) as Hnd.
    rewrite Forall_forall in IH.
    simpl files_below. rewrite in_app_iff, !in_flat_map. split.
    + intros [([nm c] & Hin & He) | ([nm c] & Hin & He)].
      * destruct (Str.mem nm ign) eqn:Hm; [destruct He|].
        apply (IH _ Hin) in He; [|apply (wf_child _ _ _ Hwf Hin)].
        destruct He as (rel & _ & -> & Hr).
        exists (nm :: rel). split; [discriminate|]. split.
        -- rewrite <- app_assoc. reflexivity.
        -- apply reaches_down with (c := c); auto.
           apply In_assoc; assumption.
      * simpl in He. destruct c as [|ec]; [|destruct He].
        simpl in He. destruct (Str.mem nm ign) eqn:Hm; [destruct He|].
        destruct He as [<-|[]].
        exists [nm]. split; [discriminate|]. split; [reflexivity|].
        apply reaches_down with (c := File); auto.
        -- apply In_assoc; assumption.
        -- constructor.
    + intros (rel & Hne & -> & Hr).
      inversion Hr as [|es' nm c rel' d Ha Hm Hr']; subst.
      apply assoc_In in Ha.
      destruct rel' as [|nm' rel'].
      * inversion Hr'; subst. right. exists (nm, File).
        split; [exact Ha|]. simpl. rewrite Hm. left. reflexivity.
      * left. exists (nm, c). split; [exact Ha|]. rewrite Hm.
        apply (IH _ Ha); [apply (wf_child _ _ _ Hwf Ha)|].
        exists (nm' :: rel'). split; [discriminate|]. split; [|exact Hr'].
        rewrite <- app_assoc. reflexivity.
Qed.

Lemma NoDup_flat_map_tag {A} (key : A -> string) (tag : path -> string)
  (f : A -> list path) (es : list A) :
  NoDup (map key es) ->
  (forall e, In e es -> NoDup (f e)) ->
  (forall e x, In e es -> In x (f e) -> tag x = key e) ->
  NoDup (flat_map f es).
Proof.
  induction es as [|e es IH]; simpl; intros Hnd Hf Ht; [constructor|].
  inversion Hnd as [|? ? Hk Hnd']; subst.
  apply NoDup_app.
  - apply Hf. left. reflexivity.
  - apply IH; [exact Hnd' | intros; apply Hf; right; assumption |].
    intros e' x He' Hx. apply Ht; [right; exact He' | exact Hx].
  - intros x Hx Hx'. apply in_flat_map in Hx'.
    destruct Hx' as (e' & He' & Hx'). apply Hk.
    rewrite <- (Ht e x (or_introl eq_refl) Hx).
    rewrite (Ht e' x (or_intror He') Hx'). apply in_map. exact He'.
Qed.

(** [_contents] yields no path twice. *)
Lemma files_below_NoDup (ign : list string) (n : node) :
  wf n = true -> forall base, NoDup (files_below ign base n).
Proof.
  induction n as [|es IH] using node_ind'; intros Hwf base; [constructor|].
  rewrite Forall_forall in IH.
  pose proof (proj1 (wf_Dir es) Hwf) as [Hnd Hes].
  simpl files_below. apply NoDup_app.
  - apply (NoDup_flat_map_tag fst (fun x => nth (length base) x "")).
    + exact Hnd.
    + intros [nm c] Hin. destruct (Str.mem nm ign); [constructor|].
      apply (IH _ Hin). apply (Hes _ _ Hin).
    + intros [nm c] x Hin Hx. simpl.
      destruct (Str.mem nm ign); [destruct Hx|].
      apply files_below_spec in Hx; [|apply (Hes _ _ Hin)].
      destruct Hx as (rel & _ & -> & _).
      rewrite <- app_assoc. simpl. apply nth_middle.
  - apply (NoDup_flat_map_tag fst (fun x => nth (length base) x "")).
    + exact Hnd.
    + intros e _. destruct (is_dir (snd e) || Str.mem (fst e) ign);
        repeat constructor. simpl. tauto.
    + intros e x _ Hx.
      destruct (is_dir (snd e) || Str.mem (fst e) ign); [destruct Hx|].
      destruct Hx as [<-|[]]. apply nth_middle.
  - intros x Hx Hx'. apply in_flat_map in Hx, Hx'.
    destruct Hx as ([nm c] & Hin & Hx). destruct Hx' as (e' & _ & Hx').
    destruct (Str.mem nm ign); [destruct Hx|].
    apply files_below_spec in Hx; [|apply (Hes _ _ Hin)].
    destruct Hx as (rel & Hne & -> & _).
    destruct (is_dir (snd e') || Str.mem (fst e') ign); [destruct Hx'|].
    destruct Hx' as [Hx'|[]]. rewrite <- app_assoc in Hx'.
    apply app_inv_head in Hx'. simpl in Hx'. inversion Hx'. congruence.
Qed.

(** What [_contents] yields below a directory [dir]: the paths
    [dir ++ rel] that lead to a file through names that are not ignored. *)
Lemma contents_spec (self : Repository) (fs : node) (dir : path)
  (es : list (string * node)) :
  wf fs = true ->
  lookup fs dir = Some (Dir es) ->
  exists found,
    _contents self fs dir = Ok found
    /\ NoDup found
    /\ forall e,
        In e found
        <-> exists rel,
            rel <> [] /\ e = dir ++ rel
            /\ lookup fs e = Some File
            /\ Forall (fun nm => Str.mem nm (ignore self) = false) rel.
Proof.
  intros Hwf Hp. exists (files_below (ignore self) dir (Dir es)).
  split; [apply contents_below; assumption|].
  split; [apply files_below_NoDup, (wf_lookup _ _ _ Hwf Hp)|].
  intros e. rewrite files_below_spec by (apply (wf_lookup _ _ _ Hwf Hp)).
  split; intros (rel & Hne & -> & H); exists rel;
    (split; [exact Hne|]; split; [reflexivity|]).
  - apply reaches_iff in H. rewrite lookup_app, Hp. exact H.
  - apply reaches_iff. rewrite lookup_app, Hp in H. exact H.
Qed.

(** Nothing [_contents] yields is a directory. *)
Lemma contents_no_dir (self : Repository) (fs : node) (dir : path)
  (found : list path) :
  wf fs = true ->
  check_dir fs dir = true ->
  _contents self fs dir = Ok found ->
  forall e, In e found -> check_dir fs e = false.
Proof.
  intros Hwf Hd Hc e He. unfold check_dir in Hd.
  destruct (lookup fs dir) as [[|es]|] eqn:Hp; try discriminate.
  destruct (contents_spec self fs dir es Hwf Hp)
    as (found' & Hc' & _ & Hspec).
  rewrite Hc in Hc'. inversion Hc'; subst found'.
  apply Hspec in He. destruct He as (rel & _ & _ & Hl & _).
  unfold check_dir. rewrite Hl. reflexivity.
Qed.

(** ** [sorted] and [contents] *)

Lemma insert_perm (d : Dotfile) (l : list Dotfile) :
  Permutation (insert d l) (d :: l).
Proof.
  induction l as [|e l IH]; simpl; [reflexivity|].
  destruct (name_le d e); [reflexivity|].
  rewrite IH. apply perm_swap.
Qed.

Lemma sorted_perm (l : list Dotfile) : Permutation (sorted l) l.
Proof.
  induction l as [|d l IH]; simpl; [reflexivity|].
  rewrite insert_perm. constructor. exact IH.
Qed.

Lemma name_le_total (a b : Dotfile) :
  name_le a b = false -> name_le b a = true.
Proof.
  unfold name_le. intros H.
  destruct (String.leb_total (strpath (name a)) (strpath (name b)));
    congruence.
Qed.

Lemma insert_by_name (d : Dotfile) (l : list Dotfile) :
  by_name l -> by_name (insert d l).
Proof.
  unfold by_name. induction l as [|e l IH]; intros Hs; simpl.
  - repeat constructor.
  - destruct (name_le d e) eqn:E.
    + constructor; [exact Hs | constructor; exact E].
    + inversion Hs as [|? ? Hs' Hhd]; subst.
      constructor; [apply IH; exact Hs'|].
      destruct l as [|f l]; simpl.
      * constructor. apply name_le_total; exact E.
      * destruct (name_le d f); constructor.
        -- apply name_le_total; exact E.
        -- inversion Hhd; assumption.
Qed.

Lemma sorted_by_name (l : list Dotfile) : by_name (sorted l).
Proof.
  induction l as [|d l IH]; simpl; [constructor|].
  apply insert_by_name; exact IH.
Qed.

(** C7: [contents] returns one dotfile for each path below the repository
    that leads to an entry that is not a directory through names that are
    not ignored (the entry's own name among them), with the entry as
    [target] and [_target_to_name] of it as [name], sorted by the string of
    the name; a repository that holds the files [z], [a] and [m] gives
    them in the order [a], [m], [z]. *)
Theorem contents_sorted_files :
  (forall (self : Repository) (fs : node) (es : list (string * node)),
      wf fs = true ->
      lookup fs (repodir self) = Some (Dir es) ->
      exists found,
        _contents self fs (repodir self) = Ok found
        /\ NoDup found
        /\ (forall e,
               In e found
               <-> exists rel,
                   rel <> [] /\ e = repodir self ++ rel
                   /\ lookup fs e = Some File
                   /\ Forall (fun nm => Str.mem nm (ignore self) = false) rel)
        /\ exists ds,
            contents self fs = Ok ds
            /\ Permutation ds (map (construct_target self) found)
            /\ by_name ds)
  /\ contents home_repo zam_fs
     = Ok [ {| name := ["home"; "user"; "a"];
               target := ["home"; "user"; "repo"; "a"] |};
            {| name := ["home"; "user"; "m"];
               target := ["home"; "user"; "repo"; "m"] |};
            {| name := ["home"; "user"; "z"];
               target := ["home"; "user"; "repo"; "z"] |} ]
  /\ contents plain_repo zam_fs
     = Ok [ {| name := ["home"; "user"; ".a"];
               target := ["home"; "user"; "repo"; "a"] |};
            {| name := ["home"; "user"; ".m"];
               target := ["home"; "user"; "repo"; "m"] |};
            {| name := ["home"; "user"; ".z"];
               target := ["home"; "user"; "repo"; "z"] |} ].
Proof.
  split; [|split; reflexivity].
  intros self fs es Hwf Hp.
  destruct (contents_spec self fs (repodir self) es Hwf Hp)
    as (found & Hc & Hnd & Hspec).
  exists found. split; [exact Hc|]. split; [exact Hnd|].
  split; [exact Hspec|].
  exists (sorted (map (construct_target self) found)).
  unfold contents. rewrite Hc. simpl.
  split; [reflexivity|]. split; [apply sorted_perm | apply sorted_by_name].
Qed.

Lemma contents_sorted_files_witness :
  wf home_fs = true
  /\ exists found,
      _contents home_repo home_fs (repodir home_repo) = Ok found
      /\ NoDup found
      /\ (forall e,
             In e found
             <-> exists rel,
                 rel <> [] /\ e = repodir home_repo ++ rel
                 /\ lookup home_fs e = Some File
                 /\ Forall (fun nm => Str.mem nm (ignore home_repo) = false)
                           rel)
      /\ exists ds,
          contents home_repo home_fs = Ok ds
          /\ Permutation ds (map (construct_target home_repo) found)
          /\ by_name ds.
Proof.
  split; [reflexivity|].
  apply (proj1 contents_sorted_files home_repo home_fs [("vimrc", File)]);
    reflexivity.
Defined.

(** ** The loop of [dotfiles] *)

Lemma nth_error_skipn {A} (l : list A) (i : nat) (x : A) :
  nth_error l i = Some x -> skipn i l = x :: skipn (S i) l.
Proof.
  revert i. induction l as [|a l IH]; intros [|i]; simpl; try discriminate.
  - intros H. inversion H. reflexivity.
  - intros H. apply IH in H. exact H.
Qed.

(** Removing the item the iterator stands on, or an equal one before it,
    moves the next item out of the iterator's reach. *)
Lemma skipn_list_remove (l : list path) (i : nat) (x : path) :
  nth_error l i = Some x ->
  skipn (S i) (list_remove x l) = skipn (S (S i)) l.
Proof.
  revert i. induction l as [|a l IH]; intros i H.
  - destruct i; discriminate.
  - simpl list_remove. destruct (Path.eqb x a) eqn:E.
    + reflexivity.
    + destruct i as [|i].
      * simpl in H. inversion H; subst.
        rewrite path_eqb_refl in E. discriminate.
      * simpl in H. change (skipn (S (S i)) (a :: list_remove x l))
          with (skipn (S i) (list_remove x l)).
        rewrite (IH i H). reflexivity.
Qed.

Section ExpandFacts.

Variable self : Repository.
Variable fs : node.
Hypothesis fs_wf : wf fs = true.

Let cost (p : path) : nat :=
  if check_dir fs p then
    match _contents self fs p with
    | Ok found => S (length found)
    | Raise _ => 0
    end
  else 0.

Let weight (l : list path) : nat := list_sum (map cost l).

Lemma contents_of_dir (p : path) :
  check_dir fs p = true ->
  exists found,
    _contents self fs p = Ok found
    /\ forall e, In e found -> check_dir fs e = false.
Proof.
  intros Hd. pose proof Hd as Hd'. unfold check_dir in Hd'.
  destruct (lookup fs p) as [[|es]|] eqn:Hp; try discriminate.
  exists (files_below (ignore self) p (Dir es)).
  pose proof (contents_below self fs p es fs_wf Hp) as Hc.
  split; [exact Hc|].
  apply (contents_no_dir self fs p _ fs_wf Hd Hc).
Qed.

Lemma weight_no_dir (l : list path) :
  (forall e, In e l -> check_dir fs e = false) -> weight l = 0.
Proof.
  unfold weight. induction l as [|a l IH]; intros H; simpl; [reflexivity|].
  rewrite IH by (intros e He; apply H; right; exact He).
  unfold cost. rewrite (H a (or_introl eq_refl)). reflexivity.
Qed.

Lemma weight_app (l1 l2 : list path) :
  weight (l1 ++ l2) = weight l1 + weight l2.
Proof. unfold weight. rewrite map_app, list_sum_app. reflexivity. Qed.

Lemma weight_cons (p : path) (l : list path) :
  weight (p :: l) = cost p + weight l.
Proof. reflexivity. Qed.

Lemma weight_tail (l : list path) : weight (skipn 1 l) <= weight l.
Proof. destruct l; simpl; unfold weight; simpl; lia. Qed.

Lemma length_tail {A} (l : list A) : length (skipn 1 l) <= length l.
Proof. destruct l; simpl; lia. Qed.

(** The loop ends: with fuel beyond the paths still ahead of the iterator
    and what the directories among them will add, it returns a list. *)
Lemma expand_returns (fuel : nat) :
  forall (i : nat) (paths : list path),
    length (skipn i paths) + weight (skipn i paths) < fuel ->
    exists expanded, expand self fs fuel i paths = Ok expanded.
Proof.
  induction fuel as [|fuel IH]; intros i paths Hm; [lia|].
  simpl. destruct (nth_error paths i) as [p|] eqn:Hn; [|eauto].
  pose proof (nth_error_skipn _ _ _ Hn) as Hs. rewrite Hs in Hm.
  rewrite weight_cons in Hm. cbn [length] in Hm.
  destruct (check_dir fs p) eqn:Hd.
  - destruct (contents_of_dir p Hd) as (found & Hc & Hnd).
    rewrite Hc. simpl bind. apply IH.
    assert (Hn' : nth_error (paths ++ found) i = Some p).
    { rewrite nth_error_app1; [exact Hn|].
      apply nth_error_Some. congruence. }
    rewrite (skipn_list_remove _ _ _ Hn').
    assert (Hlt : i < length paths) by (apply nth_error_Some; congruence).
    change (S (S i)) with (1 + S i).
    rewrite <- skipn_skipn, skipn_app.
    replace (S i - length paths) with 0 by lia. simpl (skipn 0 found).
    pose proof (length_tail (skipn (S i) paths ++ found)) as H1.
    pose proof (weight_tail (skipn (S i) paths ++ found)) as H2.
    rewrite length_app in H1. rewrite weight_app in H2.
    rewrite (weight_no_dir found Hnd) in H2.
    unfold cost in Hm. rewrite Hd, Hc in Hm. lia.
  - apply IH. lia.
Qed.

Lemma expand_rounds (paths : list path) :
  exists expanded, expand self fs (rounds self fs paths) 0 paths = Ok expanded.
Proof.
  apply expand_returns. unfold rounds. simpl skipn.
  unfold weight, cost. lia.
Qed.

End ExpandFacts.

(** ** [dotfiles] *)

Lemma made_validated (self : Repository) (fs : node) (l : list path) :
  flat_map (fun r : option Dotfile * list DotfileException =>
              match fst r with
              | Some d => [d]
              | None => []
              end) (map (construct_dotfile self fs) l)
  = validated self fs l.
Proof.
  unfold validated. induction l as [|p l IH]; simpl; [reflexivity|].
  rewrite IH. unfold construct_dotfile.
  destruct (_dotfile self fs p); reflexivity.
Qed.

Lemma made_echoed (self : Repository) (fs : node) (l : list path) :
  flat_map snd (map (construct_dotfile self fs) l) = echoed self fs l.
Proof.
  unfold echoed. induction l as [|p l IH]; simpl; [reflexivity|].
  rewrite IH. unfold construct_dotfile.
  destruct (_dotfile self fs p); reflexivity.
Qed.

Lemma dotfiles_from_expanded (self : Repository) (fs : node)
  (paths expanded : list path) :
  expand self fs (rounds self fs paths) 0 paths = Ok expanded ->
  dotfiles_from self fs paths
  = Ok (validated self fs expanded, echoed self fs expanded).
Proof.
  intros H. unfold dotfiles_from. rewrite H. simpl bind.
  rewrite made_validated, made_echoed. reflexivity.
Qed.

Lemma validated_echoed_length (self : Repository) (fs : node)
  (paths : list path) :
  length (validated self fs paths) + length (echoed self fs paths)
  = length paths.
Proof.
  unfold validated, echoed.
  induction paths as [|p l IH]; simpl; [reflexivity|].
  rewrite !length_app.
  destruct (_dotfile self fs p); simpl; lia.
Qed.

Lemma set_listing_exists (input : list path) :
  exists listed, set_listing input listed.
Proof.
  exists (nodup (list_eq_dec string_dec) input). split.
  - apply NoDup_nodup.
  - intros p. apply nodup_In.
Qed.

Lemma set_listing_one (a : path) (listed : list path) :
  set_listing [a] listed -> listed = [a].
Proof.
  intros [Hnd Hin].
  assert (P : Permutation [a] listed).
  { apply NoDup_Permutation; [repeat constructor; simpl; tauto | exact Hnd |].
    intros x. symmetry. apply Hin. }
  apply Permutation_length_1_inv in P. exact P.
Qed.

Lemma set_listing_two (a b : path) (listed : list path) :
  a <> b ->
  set_listing [a; b] listed -> listed = [a; b] \/ listed = [b; a].
Proof.
  intros Hab [Hnd Hin].
  assert (P : Permutation [a; b] listed).
  { apply NoDup_Permutation; [| exact Hnd |].
    - repeat constructor; simpl; intuition congruence.
    - intros x. symmetry. apply Hin. }
  apply Permutation_length_2_inv in P. exact P.
Qed.

(** C8: [dotfiles] returns for every input; what it returns are the
    dotfiles of those paths of the expanded list that pass [_dotfile], in
    order, and every exception [_dotfile] raises for a path of that list,
    whichever of the four it is, is echoed and costs that path only.  The
    batch below meets all four exceptions and still returns the two
    dotfiles that are valid. *)
Theorem dotfiles_skips_failures :
  (forall (self : Repository) (fs : node) (input : list path),
      wf fs = true ->
      (exists out, dotfiles self fs input out)
      /\ forall out,
          dotfiles self fs input out ->
          exists listed expanded,
            set_listing input listed
            /\ expand self fs (rounds self fs listed) 0 listed = Ok expanded
            /\ out = Ok (validated self fs expanded, echoed self fs expanded)
            /\ length (validated self fs expanded)
               + length (echoed self fs expanded)
               = length expanded)
  /\ dotfiles_from home_repo home_fs
       [ ["srv"; "vimrc"]; ["home"; "user"; "repo"; "vimrc"]; dir1_b;
         dir2; dir1; ["home"; "user"; ".nothing"] ]
     = Ok ([ tracked [".nothing"]; tracked ["dir2"; "x"] ],
           [ NotRootedInHome ["srv"; "vimrc"];
             InRepository ["home"; "user"; "repo"; "vimrc"];
             TargetIgnored dir1_b;
             IsDirectory dir1 ]).
Proof.
  split; [|reflexivity].
  intros self fs input Hwf. split.
  - destruct (set_listing_exists input) as (listed & Hl).
    exists (dotfiles_from self fs listed), listed. auto.
  - intros out (listed & Hl & <-).
    destruct (expand_rounds self fs Hwf listed) as (expanded & He).
    exists listed, expanded.
    split; [exact Hl|]. split; [exact He|].
    split; [apply dotfiles_from_expanded; exact He|].
    apply validated_echoed_length.
Qed.

Lemma dotfiles_skips_failures_witness :
  wf home_fs = true
  /\ exists out, dotfiles home_repo home_fs [dir1; dir1_a] out.
Proof.
  split; [reflexivity|].
  apply (proj1 dotfiles_skips_failures home_repo home_fs [dir1; dir1_a]).
  reflexivity.
Defined.

(** C4 fails on the code: of two directories handed to [dotfiles], the one
    the set lists second is passed over by the loop, because removing the
    first from the list moves the second into the place the iterator has
    just left.  It stays in the list as it is, [_dotfile] raises
    [IsDirectory] for it, and the files below it are not returned. *)
Theorem dotfiles_leaves_directory :
  forall out,
    dotfiles home_repo home_fs [dir1; dir2] out ->
    out = Ok ([ tracked ["dir"; "c"; "d"]; tracked ["dir"; "a"] ],
              [ IsDirectory dir2 ])
    \/ out = Ok ([ tracked ["dir2"; "x"] ], [ IsDirectory dir1 ]).
Proof.
  intros out (listed & Hl & <-).
  apply set_listing_two in Hl; [|discriminate].
  destruct Hl as [-> | ->]; [left | right]; reflexivity.
Qed.

Lemma dotfiles_leaves_directory_witness :
  dotfiles home_repo home_fs [dir1; dir2]
    (dotfiles_from home_repo home_fs [dir1; dir2])
  /\ (dotfiles_from home_repo home_fs [dir1; dir2]
      = Ok ([ tracked ["dir"; "c"; "d"]; tracked ["dir"; "a"] ],
            [ IsDirectory dir2 ])
      \/ dotfiles_from home_repo home_fs [dir1; dir2]
         = Ok ([ tracked ["dir2"; "x"] ], [ IsDirectory dir1 ])).
Proof.
  assert (H : dotfiles home_repo home_fs [dir1; dir2]
                (dotfiles_from home_repo home_fs [dir1; dir2])).
  { exists [dir1; dir2]. split; [|reflexivity]. split.
    - repeat constructor; simpl; intuition discriminate.
    - intros p. tauto. }
  split; [exact H|].
  apply (dotfiles_leaves_directory _ H).
Defined.

(** C5 fails on the code: the set removes what the input repeats, not what
    the expansion of a directory repeats.  A directory handed in together
    with a file below it gives that file twice, whichever order the set
    lists the two in.  The directory alone gives its file [a] and the file
    [c/d] once each and leaves the ignored file [b] out. *)
Theorem dotfiles_repeats_file :
  (forall out,
      dotfiles home_repo home_fs [dir1; dir1_a] out ->
      out = Ok ([ tracked ["dir"; "a"]; tracked ["dir"; "c"; "d"];
                  tracked ["dir"; "a"] ], []))
  /\ ~ NoDup [ tracked ["dir"; "a"]; tracked ["dir"; "c"; "d"];
               tracked ["dir"; "a"] ]
  /\ (forall out,
         dotfiles home_repo home_fs [dir1] out ->
         out = Ok ([ tracked ["dir"; "c"; "d"]; tracked ["dir"; "a"] ], [])).
Proof.
  split; [|split].
  - intros out (listed & Hl & <-).
    apply set_listing_two in Hl; [|discriminate].
    destruct Hl as [-> | ->]; reflexivity.
  - intros H. inversion H as [|? ? Hn _]; subst. apply Hn. simpl. auto.
  - intros out (listed & Hl & <-).
    apply set_listing_one in Hl. subst. reflexivity.
Qed.

Lemma dotfiles_repeats_file_witness :
  dotfiles home_repo home_fs [dir1; dir1_a]
    (dotfiles_from home_repo home_fs [dir1_a; dir1])
  /\ dotfiles_from home_repo home_fs [dir1_a; dir1]
     = Ok ([ tracked ["dir"; "a"]; tracked ["dir"; "c"; "d"];
             tracked ["dir"; "a"] ], []).
Proof.
  assert (H : dotfiles home_repo home_fs [dir1; dir1_a]
                (dotfiles_from home_repo home_fs [dir1_a; dir1])).
  { exists [dir1_a; dir1]. split; [|reflexivity]. split.
    - repeat constructor; simpl; intuition discriminate.
    - intros p. simpl. tauto. }
  split; [exact H|].
  apply (proj1 dotfiles_repeats_file _ H).
Defined.

(** ** Changing the file system *)

Lemma assoc_alter_same (f : node -> node) (nm : string)
  (es : list (string * node)) :
  assoc nm (alter f nm es) = option_map f (assoc nm es).
Proof.
  induction es as [|[k c] es IH]; simpl; [reflexivity|].
  destruct (String.eqb nm k) eqn:E; simpl; rewrite E; [reflexivity | exact IH].
Qed.

Lemma alter_ext (f g : node -> node) (nm : string)
  (es : list (string * node)) :
  (forall c, assoc nm es = Some c -> f c = g c) ->
  alter f nm es = alter g nm es.
Proof.
  induction es as [|[k c] es IH]; simpl; [reflexivity|].
  destruct (String.eqb nm k) eqn:E; intros H.
  - rewrite (H c eq_refl). reflexivity.
  - rewrite (IH H). reflexivity.
Qed.

Lemma alter_alter (f g : node -> node) (nm : string)
  (es : list (string * node)) :
  alter f nm (alter g nm es) = alter (fun c => f (g c)) nm es.
Proof.
  induction es as [|[k c] es IH]; simpl; [reflexivity|].
  destruct (String.eqb nm k) eqn:E; simpl; rewrite E; [reflexivity|].
  rewrite IH. reflexivity.
Qed.

Lemma alter_id (f : node -> node) (nm : string)
  (es : list (string * node)) :
  (forall c, assoc nm es = Some c -> f c = c) -> alter f nm es = es.
Proof.
  induction es as [|[k c] es IH]; simpl; [reflexivity|].
  destruct (String.eqb nm k) eqn:E; intros H.
  - rewrite (H c eq_refl). reflexivity.
  - rewrite (IH H). reflexivity.
Qed.

Lemma update_at_app (f : node -> node) (p q : path) (n : node) :
  update_at f (p ++ q) n = update_at (update_at f q) p n.
Proof.
  revert n. induction p as [|nm p IH]; intros n; simpl; [reflexivity|].
  destruct n as [|es]; [reflexivity|].
  f_equal. apply alter_ext. intros c _. apply IH.
Qed.

Lemma update_at_ext (f g : node -> node) (p : path) (n : node) :
  (forall m, lookup n p = Some m -> f m = g m) ->
  update_at f p n = update_at g p n.
Proof.
  revert n. induction p as [|nm p IH]; intros n H; simpl.
  - apply H. reflexivity.
  - destruct n as [|es]; [reflexivity|].
    f_equal. apply alter_ext. intros c Hc. apply IH.
    intros m Hm. apply H. simpl. rewrite Hc. exact Hm.
Qed.

Lemma update_at_update_at (f g : node -> node) (p : path) (n : node) :
  update_at f p (update_at g p n) = update_at (fun m => f (g m)) p n.
Proof.
  revert n. induction p as [|nm p IH]; intros n; simpl; [reflexivity|].
  destruct n as [|es]; [reflexivity|].
  rewrite alter_alter. f_equal. apply alter_ext. intros c _. apply IH.
Qed.

Lemma update_at_id (f : node -> node) (p : path) (n : node) :
  (forall m, lookup n p = Some m -> f m = m) -> update_at f p n = n.
Proof.
  revert n. induction p as [|nm p IH]; intros n H; simpl.
  - apply H. reflexivity.
  - destruct n as [|es]; [reflexivity|].
    f_equal. apply alter_id. intros c Hc. apply IH.
    intros m Hm. apply H. simpl. rewrite Hc. exact Hm.
Qed.

Lemma lookup_update_at (f : node -> node) (p : path) (n : node) :
  lookup (update_at f p n) p = option_map f (lookup n p).
Proof.
  revert n. induction p as [|nm p IH]; intros n; simpl; [reflexivity|].
  destruct n as [|es]; [reflexivity|].
  rewrite assoc_alter_same. destruct (assoc nm es); simpl; [apply IH|].
  reflexivity.
Qed.

Lemma lookup_graft (d : node) (p : path) (fs : node) (m : node) :
  lookup fs p = Some m -> lookup (graft d p fs) p = Some d.
Proof.
  intros H. unfold graft. rewrite lookup_update_at, H. reflexivity.
Qed.

Lemma graft_graft (d d' : node) (p : path) (fs : node) :
  graft d' p (graft d p fs) = graft d' p fs.
Proof. unfold graft. apply update_at_update_at. Qed.

Lemma graft_same (p : path) (fs : node) (m : node) :
  lookup fs p = Some m -> graft m p fs = fs.
Proof.
  intros H. unfold graft. apply update_at_id. intros m' Hm'. congruence.
Qed.

Lemma update_at_graft (f : node -> node) (p : path) (fs : node) (m : node) :
  lookup fs p = Some m -> update_at f p fs = graft (f m) p fs.
Proof.
  intros H. unfold graft. apply update_at_ext. intros m' Hm'. congruence.
Qed.

(** Replacing an entry of the directory at [p] is replacing the
    directory. *)
Lemma graft_child (c' : node) (p : path) (nm : string) (fs : node)
  (es : list (string * node)) :
  lookup fs p = Some (Dir es) ->
  graft c' (p ++ [nm]) fs = graft (Dir (alter (fun _ => c') nm es)) p fs.
Proof.
  intros H. unfold graft at 1. rewrite update_at_app.
  rewrite (update_at_graft _ _ _ _ H). reflexivity.
Qed.

Lemma removelast_snoc (p : path) (nm : string) : removelast (p ++ [nm]) = p.
Proof. apply removelast_last. Qed.

(** Removing an entry of the directory at [p] is replacing the directory
    by one without the entry. *)
Lemma remove_child (p : path) (nm : string) (fs : node)
  (es : list (string * node)) (c : node) :
  lookup fs p = Some (Dir es) ->
  assoc nm es = Some c ->
  remove fs (p ++ [nm]) = Ok (graft (Dir (delete nm es)) p fs).
Proof.
  intros Hp Ha. unfold remove.
  destruct (p ++ [nm]) as [|x l] eqn:E; [destruct p; discriminate|].
  rewrite <- E. rewrite (lookup_child _ _ _ nm Hp), Ha.
  rewrite basename_snoc, removelast_snoc.
  rewrite (update_at_graft _ _ _ _ Hp). reflexivity.
Qed.

(** ** Entries of a directory *)

Lemma assoc_app_here (nm : string) (c : node) (A B : list (string * node)) :
  ~ In nm (map fst A) -> assoc nm (A ++ (nm, c) :: B) = Some c.
Proof.
  induction A as [|[k c0] A IH]; simpl; intros H.
  - rewrite String.eqb_refl. reflexivity.
  - destruct (String.eqb_spec nm k) as [->|_]; [tauto|]. apply IH. tauto.
Qed.

Lemma alter_app_here (f : node -> node) (nm : string) (c : node)
  (A B : list (string * node)) :
  ~ In nm (map fst A) ->
  alter f nm (A ++ (nm, c) :: B) = A ++ (nm, f c) :: B.
Proof.
  induction A as [|[k c0] A IH]; simpl; intros H.
  - rewrite String.eqb_refl. reflexivity.
  - destruct (String.eqb_spec nm k) as [->|_]; [tauto|].
    rewrite IH by tauto. reflexivity.
Qed.

Lemma delete_notin (nm : string) (A : list (string * node)) :
  ~ In nm (map fst A) -> delete nm A = A.
Proof.
  unfold delete. induction A as [|[k c0] A IH]; simpl; intros H;
    [reflexivity|].
  destruct (String.eqb_spec nm k) as [->|_]; [tauto|]. simpl.
  rewrite IH by tauto. reflexivity.
Qed.

Lemma delete_app_here (nm : string) (c : node) (A B : list (string * node)) :
  ~ In nm (map fst A) -> ~ In nm (map fst B) ->
  delete nm (A ++ (nm, c) :: B) = A ++ B.
Proof.
  intros HA HB. unfold delete. rewrite filter_app. simpl.
  rewrite String.eqb_refl. simpl.
  fold (delete nm A). fold (delete nm B).
  rewrite !delete_notin by assumption. reflexivity.
Qed.

Lemma names_filter (keep : string * node -> bool) (nm : string)
  (A : list (string * node)) :
  ~ In nm (map fst A) -> ~ In nm (map fst (filter keep A)).
Proof.
  intros H Hin. apply H. apply in_map_iff in Hin.
  destruct Hin as (e & He & Hin). apply filter_In in Hin.
  apply in_map_iff. exists e. tauto.
Qed.

Lemma names_prune_entry (ign : list string) (es : list (string * node)) :
  map fst (map (prune_entry ign) es) = map fst es.
Proof. rewrite map_map. reflexivity. Qed.

Lemma nodup_split (A B : list (string * node)) (nm : string) (c : node) :
  NoDup (map fst (A ++ (nm, c) :: B)) ->
  ~ In nm (map fst A) /\ ~ In nm (map fst B).
Proof.
  rewrite map_app. simpl. intros H.
  apply NoDup_remove_2 in H. rewrite in_app_iff in H. tauto.
Qed.

Lemma pruned_Dir (ign : list string) (es : list (string * node)) :
  pruned ign (Dir es)
  = Dir (filter (fun e => negb (prunable ign e)) (map (prune_entry ign) es)).
Proof. reflexivity. Qed.

(** ** [prune] *)

Section PruneFacts.

Variable self : Repository.

Let ign := ignore self.
Let walk :=
  gen (fun fs : node => fs) (prune_filter self) (recurse self) prune_body.
Let keep := fun e : string * node => negb (prunable ign e).

Lemma prune_entry_not_dir (nm : string) (c : node) :
  is_dir c && negb (Str.mem nm ign) = false ->
  prune_entry ign (nm, c) = (nm, c).
Proof.
  unfold prune_entry. simpl. destruct (Str.mem nm ign); [reflexivity|].
  destruct c; [reflexivity | discriminate].
Qed.

Lemma prune_entry_dir (nm : string) (c : node) :
  Str.mem nm ign = false -> prune_entry ign (nm, c) = (nm, pruned ign c).
Proof. unfold prune_entry. simpl. intros ->. reflexivity. Qed.

Lemma keep_not_dir (nm : string) (c : node) :
  is_dir c && negb (Str.mem nm ign) = false -> keep (nm, c) = true.
Proof.
  unfold keep, prunable. simpl. destruct (Str.mem nm ign); [reflexivity|].
  destruct c; [reflexivity | discriminate].
Qed.

(** The first half of [gen]: the directories to descend into, one after
    the other. *)
Lemma prune_descend (fuel : nat) (p : path) (fs0 : node)
  (es : list (string * node)) :
  (forall q ec fs,
      lookup fs q = Some (Dir ec) -> wf (Dir ec) = true ->
      height (Dir ec) <= fuel ->
      walk fuel fs q = Ok (graft (pruned ign (Dir ec)) q fs)) ->
  lookup fs0 p = Some (Dir es) ->
  wf (Dir es) = true ->
  height (Dir es) <= S fuel ->
  forall todo done,
    es = done ++ todo ->
    foldM (walk fuel)
      (filter (fun q => check_dir fs0 q && recurse self fs0 q)
              (map (fun e => p ++ [fst e]) todo))
      (graft (Dir (map (prune_entry ign) done ++ todo)) p fs0)
    = Ok (graft (Dir (map (prune_entry ign) (done ++ todo))) p fs0).
Proof.
  intros IH Hp Hwf Hh.
  pose proof (wf_nodup _ Hwf) as Hnd.
  induction todo as [|[nm c] todo IHt]; intros done Hes.
  - simpl. rewrite !app_nil_r. reflexivity.
  - assert (Hin : In (nm, c) es)
      by (rewrite Hes; apply in_elt).
    pose proof Hnd as Hnd'. apply nodupb_NoDup in Hnd'.
    rewrite Hes in Hnd'. apply nodup_split in Hnd'.
    destruct Hnd' as [Hdone Htodo].
    assert (Hdone' : ~ In nm (map fst (map (prune_entry ign) done)))
      by (rewrite names_prune_entry; exact Hdone).
    assert (Hes' : es = (done ++ [(nm, c)]) ++ todo)
      by (rewrite <- app_assoc; exact Hes).
    simpl map. simpl filter.
    rewrite (check_dir_child _ _ _ _ _ Hp Hnd Hin), recurse_child.
    fold ign.
    destruct (is_dir c && negb (Str.mem nm ign)) eqn:Hd.
    + apply andb_true_iff in Hd. destruct Hd as [Hc Hm].
      apply negb_true_iff in Hm.
      destruct c as [|ec]; [discriminate|].
      set (cur := map (prune_entry ign) done ++ (nm, Dir ec) :: todo).
      assert (Hcur : lookup (graft (Dir cur) p fs0) p = Some (Dir cur))
        by (apply (lookup_graft _ _ _ _ Hp)).
      simpl foldM.
      rewrite (IH (p ++ [nm]) ec (graft (Dir cur) p fs0)).
      * simpl bind.
        rewrite (graft_child _ _ _ _ _ Hcur), graft_graft.
        unfold cur. rewrite alter_app_here by assumption.
        specialize (IHt (done ++ [(nm, Dir ec)]) Hes').
        rewrite map_app in IHt. simpl map in IHt.
        rewrite (prune_entry_dir _ _ Hm) in IHt.
        rewrite <- !app_assoc in IHt. simpl app in IHt.
        exact IHt.
      * rewrite (lookup_child _ _ _ nm Hcur). unfold cur.
        apply assoc_app_here; assumption.
      * apply (wf_child _ _ _ Hwf Hin).
      * pose proof (height_child _ _ _ Hin). lia.
    + specialize (IHt (done ++ [(nm, c)]) Hes').
      rewrite map_app in IHt. simpl map in IHt.
      rewrite (prune_entry_not_dir _ _ Hd) in IHt.
      rewrite <- !app_assoc in IHt. simpl app in IHt.
      exact IHt.
Qed.

Lemma prune_filter_child (fs : node) (p : path)
  (cur : list (string * node)) (nm : string) (c : node) :
  lookup fs p = Some (Dir cur) ->
  assoc nm cur = Some c ->
  prune_filter self fs (p ++ [nm]) = is_dir c && negb (Str.mem nm ign).
Proof.
  intros Hp Ha. unfold prune_filter, check_dir.
  rewrite (lookup_child _ _ _ nm Hp), Ha, basename_snoc. reflexivity.
Qed.

(** The second half of [gen], with the body of the loop of [prune] run
    on each entry that passes the filter. *)
Lemma prune_sweep (p : path) (fs0 : node) (m : node)
  (es1 : list (string * node)) :
  lookup fs0 p = Some m ->
  NoDup (map fst es1) ->
  forall todo done,
    es1 = done ++ todo ->
    foldM (fun s q => if prune_filter self s q then prune_body s q
                      else Ok s)
      (map (fun nm => p ++ [nm]) (map fst todo))
      (graft (Dir (filter keep done ++ todo)) p fs0)
    = Ok (graft (Dir (filter keep (done ++ todo))) p fs0).
Proof.
  intros Hp Hnd.
  induction todo as [|[nm c] todo IHt]; intros done Hes.
  - simpl. rewrite !app_nil_r. reflexivity.
  - pose proof Hnd as Hnd'. rewrite Hes in Hnd'. apply nodup_split in Hnd'.
    destruct Hnd' as [Hdone Htodo].
    assert (Hdone' : ~ In nm (map fst (filter keep done)))
      by (apply names_filter; exact Hdone).
    assert (Hes' : es1 = (done ++ [(nm, c)]) ++ todo)
      by (rewrite <- app_assoc; exact Hes).
    specialize (IHt (done ++ [(nm, c)]) Hes').
    rewrite <- app_assoc in IHt. simpl app in IHt.
    rewrite filter_app in IHt. simpl filter in IHt.
    set (cur := filter keep done ++ (nm, c) :: todo).
    assert (Hcur : lookup (graft (Dir cur) p fs0) p = Some (Dir cur))
      by (apply (lookup_graft _ _ _ _ Hp)).
    assert (Ha : assoc nm cur = Some c)
      by (apply assoc_app_here; exact Hdone').
    simpl map. simpl foldM.
    rewrite (prune_filter_child _ _ _ _ _ Hcur Ha).
    destruct (is_dir c && negb (Str.mem nm ign)) eqn:Hd.
    + apply andb_true_iff in Hd. destruct Hd as [Hc Hm].
      apply negb_true_iff in Hm.
      destruct c as [|ec]; [discriminate|].
      unfold prune_body at 1. unfold listdir.
      rewrite (lookup_child _ _ _ nm Hcur), Ha. simpl bind.
      rewrite length_map.
      destruct ec as [|e ec]; simpl Nat.eqb; cbv iota.
      * rewrite (remove_child _ _ _ _ _ Hcur Ha). simpl bind.
        rewrite graft_graft. unfold cur.
        rewrite delete_app_here by assumption.
        assert (Hk : keep (nm, Dir []) = false)
          by (unfold keep, prunable; simpl; rewrite Hm; reflexivity).
        rewrite Hk in IHt. rewrite app_nil_r in IHt. exact IHt.
      * simpl bind.
        assert (Hk : keep (nm, Dir (e :: ec)) = true)
          by (unfold keep, prunable; simpl; rewrite andb_false_r;
              reflexivity).
        rewrite Hk in IHt. rewrite <- app_assoc in IHt. exact IHt.
    + simpl bind. rewrite (keep_not_dir _ _ Hd) in IHt.
      rewrite <- app_assoc in IHt. exact IHt.
Qed.

(** [gen] with the loop of [prune] replaces the directory it is run on by
    the pruned one. *)
Lemma gen_prune (fuel : nat) :
  forall (p : path) (es : list (string * node)) (fs : node),
    lookup fs p = Some (Dir es) ->
    wf (Dir es) = true ->
    height (Dir es) <= fuel ->
    walk fuel fs p = Ok (graft (pruned ign (Dir es)) p fs).
Proof.
  induction fuel as [|fuel IH]; intros p es fs Hp Hwf Hh.
  - simpl in Hh. lia.
  - unfold walk. simpl gen. unfold listdir at 1. rewrite Hp. simpl bind.
    fold walk.
    pose proof (prune_descend fuel p fs es IH Hp Hwf Hh es [] eq_refl)
      as H1.
    simpl app in H1. rewrite (graft_same _ _ _ Hp) in H1.
    rewrite H1. simpl bind.
    assert (Hnd : NoDup (map fst (map (prune_entry ign) es))).
    { rewrite names_prune_entry. apply nodupb_NoDup, wf_nodup, Hwf. }
    pose proof (prune_sweep p fs (Dir es) (map (prune_entry ign) es)
                  Hp Hnd (map (prune_entry ign) es) [] eq_refl) as H2.
    simpl app in H2. rewrite names_prune_entry in H2.
    rewrite <- (map_map fst (fun nm => p ++ [nm])).
    rewrite H2. rewrite pruned_Dir. reflexivity.
Qed.

(** [prune] returns the file system with the repository pruned. *)
Lemma prune_pruned (fs : node) (es : list (string * node)) :
  wf fs = true ->
  lookup fs (repodir self) = Some (Dir es) ->
  prune self fs = Ok (graft (pruned ign (Dir es)) (repodir self) fs).
Proof.
  intros Hwf Hp. unfold prune. fold walk. apply gen_prune.
  - exact Hp.
  - apply (wf_lookup _ _ _ Hwf Hp).
  - pose proof (height_lookup _ _ _ Hp). lia.
Qed.

End PruneFacts.

(** ** The pruned tree *)

Lemma assoc_notin (nm : string) (es : list (string * node)) :
  ~ In nm (map fst es) -> assoc nm es = None.
Proof.
  induction es as [|[k c] es IH]; simpl; intros H; [reflexivity|].
  destruct (String.eqb_spec nm k) as [->|_]; [tauto|]. apply IH. tauto.
Qed.

Lemma assoc_filter_map (keep : string * node -> bool)
  (f : string * node -> string * node) (nm : string)
  (es : list (string * node)) :
  (forall e, fst (f e) = fst e) ->
  NoDup (map fst es) ->
  assoc nm (filter keep (map f es))
  = match assoc nm es with
    | Some c => if keep (f (nm, c)) then Some (snd (f (nm, c))) else None
    | None => None
    end.
Proof.
  intros Hf. induction es as [|[k c] es IH]; simpl; intros Hnd;
    [reflexivity|].
  inversion Hnd as [|? ? Hk Hnd']; subst.
  destruct (String.eqb_spec nm k) as [->|Hne].
  - destruct (keep (f (k, c))) eqn:E.
    + simpl. destruct (f (k, c)) as [k' c'] eqn:Ef.
      assert (k' = k) by (pose proof (Hf (k, c)) as X; rewrite Ef in X;
                          exact X).
      subst k'. rewrite String.eqb_refl. reflexivity.
    + apply assoc_notin. apply names_filter.
      rewrite map_map.
      replace (map (fun x => fst (f x)) es) with (map fst es); [exact Hk|].
      apply map_ext. intros e. symmetry. apply Hf.
  - destruct (keep (f (k, c))).
    + simpl. destruct (f (k, c)) as [k' c'] eqn:Ef.
      assert (k' = k) by (pose proof (Hf (k, c)) as X; rewrite Ef in X;
                          exact X).
      subst k'. destruct (String.eqb_spec nm k); [contradiction|].
      apply IH; exact Hnd'.
    + apply IH; exact Hnd'.
Qed.

Section PrunedFacts.

Variable ign : list string.

Lemma assoc_pruned (nm : string) (es : list (string * node)) :
  wf (Dir es) = true ->
  assoc nm (filter (fun e => negb (prunable ign e))
                   (map (prune_entry ign) es))
  = match assoc nm es with
    | Some c =>
        if Str.mem nm ign then Some c
        else match pruned ign c with
             | Dir [] => None
             | c' => Some c'
             end
    | None => None
    end.
Proof.
  intros Hwf.
  rewrite assoc_filter_map;
    [| reflexivity | apply nodupb_NoDup, wf_nodup, Hwf].
  destruct (assoc nm es) as [c|]; [|reflexivity].
  unfold prune_entry, prunable. simpl.
  destruct (Str.mem nm ign); simpl; [reflexivity|].
  destruct (pruned ign c) as [|[|e ec]]; reflexivity.
Qed.

Lemma lookup_nonempty (n : node) (rel : list string) (d : node) :
  rel <> [] -> lookup n rel = Some d -> n <> Dir [] /\ n <> File.
Proof.
  destruct rel as [|nm rel]; [congruence|]. intros _. simpl.
  destruct n as [|[|e es]]; simpl; try discriminate.
  intros _. split; discriminate.
Qed.

(** A directory with an ignored name stays as it is, with all that is
    below it, wherever it is reached from. *)
Lemma pruned_keeps_ignored (rel : list string) :
  forall (n d : node),
    wf n = true ->
    rel <> [] ->
    lookup n rel = Some d ->
    Str.mem (last rel "") ign = true ->
    lookup (pruned ign n) rel = Some d.
Proof.
  induction rel as [|nm rel IH]; intros n d Hwf Hne Hl Hm; [congruence|].
  destruct n as [|es]; [discriminate|].
  simpl in Hl. destruct (assoc nm es) as [c|] eqn:Ha; [|discriminate].
  rewrite pruned_Dir. simpl lookup. rewrite (assoc_pruned nm es Hwf), Ha.
  pose proof (wf_child _ _ _ Hwf (assoc_In _ _ _ Ha)) as [_ Hwfc].
  destruct rel as [|nm' rel].
  - simpl in Hm, Hl. rewrite Hm. exact Hl.
  - assert (Hl' : lookup (pruned ign c) (nm' :: rel) = Some d)
      by (apply IH; [exact Hwfc | discriminate | exact Hl | exact Hm]).
    destruct (Str.mem nm ign); [exact Hl|].
    destruct (lookup_nonempty _ (nm' :: rel) _ ltac:(discriminate) Hl')
      as [H1 H2].
    destruct (pruned ign c) as [|[|e ec]]; try congruence.
Qed.

(** No directory that is reached through names that are not ignored is
    left without entries. *)
Lemma pruned_no_empty (rel : list string) :
  forall (n : node),
    wf n = true ->
    rel <> [] ->
    Forall (fun nm => Str.mem nm ign = false) rel ->
    lookup (pruned ign n) rel <> Some (Dir []).
Proof.
  induction rel as [|nm rel IH]; intros n Hwf Hne Hf Hl; [congruence|].
  inversion Hf as [|? ? Hm Hf']; subst.
  destruct n as [|es]; [discriminate|].
  rewrite pruned_Dir in Hl. simpl lookup in Hl.
  rewrite (assoc_pruned nm es Hwf), Hm in Hl.
  destruct (assoc nm es) as [c|] eqn:Ha; [|discriminate].
  pose proof (wf_child _ _ _ Hwf (assoc_In _ _ _ Ha)) as [_ Hwfc].
  destruct rel as [|nm' rel].
  - destruct (pruned ign c) as [|[|e ec]]; simpl in Hl; congruence.
  - apply (IH c Hwfc ltac:(discriminate) Hf').
    destruct (pruned ign c) as [|[|e ec]]; try discriminate; exact Hl.
Qed.

(** Pruning what is pruned changes nothing. *)
Lemma pruned_pruned (n : node) : pruned ign (pruned ign n) = pruned ign n.
Proof.
  induction n as [|es IH] using node_ind'; [reflexivity|].
  rewrite pruned_Dir. rewrite pruned_Dir.
  set (L := map (prune_entry ign) es).
  assert (HL : forall e, In e L -> prune_entry ign e = e).
  { intros e He. unfold L in He. apply in_map_iff in He.
    destruct He as ([nm c] & <- & Hin).
    rewrite Forall_forall in IH. specialize (IH _ Hin). simpl in IH.
    unfold prune_entry. simpl.
    destruct (Str.mem nm ign) eqn:Hm; simpl; rewrite ?Hm;
      [reflexivity | rewrite IH; reflexivity]. }
  f_equal.
  replace (map (prune_entry ign) (filter (fun e => negb (prunable ign e)) L))
    with (filter (fun e => negb (prunable ign e)) L).
  - clear. induction L as [|e L IHL]; simpl; [reflexivity|].
    destruct (negb (prunable ign e)) eqn:E; simpl; rewrite ?E, IHL;
      reflexivity.
  - clear - HL. induction L as [|e L IHL]; simpl; [reflexivity|].
    destruct (negb (prunable ign e)); simpl.
    + rewrite (HL e (or_introl eq_refl)).
      rewrite <- IHL by (intros x Hx; apply HL; right; exact Hx).
      reflexivity.
    + apply IHL. intros x Hx. apply HL. right. exact Hx.
Qed.

End PrunedFacts.

(** ** Well-formed file systems stay well-formed *)

Lemma NoDup_names_filter (keep : string * node -> bool)
  (es : list (string * node)) :
  NoDup (map fst es) -> NoDup (map fst (filter keep es)).
Proof.
  induction es as [|[k c] es IH]; simpl; intros H; [constructor|].
  inversion H as [|? ? Hk Hnd]; subst.
  destruct (keep (k, c)); simpl; [|apply IH; exact Hnd].
  constructor; [|apply IH; exact Hnd].
  apply names_filter. exact Hk.
Qed.

Lemma wf_pruned (ign : list string) (n : node) :
  wf n = true -> wf (pruned ign n) = true.
Proof.
  induction n as [|es IH] using node_ind'; intros Hwf; [reflexivity|].
  rewrite pruned_Dir. apply wf_Dir. apply wf_Dir in Hwf.
  destruct Hwf as [Hnd Hes]. split.
  - apply NoDup_names_filter. rewrite names_prune_entry. exact Hnd.
  - intros nm c Hin. apply filter_In in Hin. destruct Hin as [Hin _].
    apply in_map_iff in Hin. destruct Hin as ([k c0] & He & Hin).
    unfold prune_entry in He. simpl in He. inversion He; subst.
    destruct (Hes _ _ Hin) as [Hv Hc]. split; [exact Hv|].
    destruct (Str.mem nm ign); [exact Hc|].
    rewrite Forall_forall in IH. apply (IH _ Hin). exact Hc.
Qed.

Lemma names_alter (f : node -> node) (nm : string)
  (es : list (string * node)) :
  map fst (alter f nm es) = map fst es.
Proof.
  induction es as [|[k c] es IH]; simpl; [reflexivity|].
  destruct (String.eqb nm k); simpl; [reflexivity|]. rewrite IH. reflexivity.
Qed.

Lemma In_alter (f : node -> node) (nm : string) (es : list (string * node))
  (k : string) (c' : node) :
  In (k, c') (alter f nm es) ->
  In (k, c') es \/ exists c, assoc nm es = Some c /\ k = nm /\ c' = f c.
Proof.
  induction es as [|[k0 c0] es IH]; simpl; [tauto|].
  destruct (String.eqb_spec nm k0) as [->|Hne]; simpl.
  - intros [H|H]; [|auto]. inversion H; subst. right. eauto.
  - intros [H|H]; [auto|]. destruct (IH H) as [?|?]; auto.
Qed.

Lemma wf_update_at (f : node -> node) (p : path) :
  forall n,
    wf n = true ->
    (forall m, lookup n p = Some m -> wf m = true -> wf (f m) = true) ->
    wf (update_at f p n) = true.
Proof.
  induction p as [|nm p IH]; intros n Hwf Hf; simpl.
  - apply Hf; [reflexivity | exact Hwf].
  - destruct n as [|es]; [reflexivity|].
    apply wf_Dir. pose proof Hwf as Hwf'. apply wf_Dir in Hwf'.
    destruct Hwf' as [Hnd Hes]. split.
    + rewrite names_alter. exact Hnd.
    + intros k c' Hin. apply In_alter in Hin.
      destruct Hin as [Hin | (c & Ha & -> & ->)]; [apply Hes; exact Hin|].
      destruct (Hes _ _ (assoc_In _ _ _ Ha)) as [Hv Hc].
      split; [exact Hv|]. apply IH; [exact Hc|].
      intros m Hm. apply Hf. simpl. rewrite Ha. exact Hm.
Qed.

Lemma wf_graft (d : node) (p : path) (fs : node) :
  wf fs = true -> wf d = true -> wf (graft d p fs) = true.
Proof.
  intros Hfs Hd. unfold graft. apply wf_update_at; [exact Hfs|].
  intros _ _ _. exact Hd.
Qed.

Lemma basename_app (p rel : list string) :
  rel <> [] -> basename (p ++ rel) = last rel "".
Proof.
  intros Hne. unfold basename.
  induction p as [|x p IH]; simpl; [reflexivity|].
  destruct (p ++ rel) eqn:E; [|exact IH].
  apply app_eq_nil in E. tauto.
Qed.

(** C6, as the code has it: one call of [prune] removes both directories
    of [repo/empty1/empty2] and leaves [repo], empty.  For every
    well-formed file system in which the repository is a directory, [prune]
    returns; the repository is still a directory; every entry below the
    repository whose name is ignored is left as it was; no directory that
    is reached from the repository through names that are not ignored (its
    own among them) is left without entries; and a second call changes
    nothing.  Directories below an ignored one are not visited, so an empty
    directory there stays. *)
Theorem prune_removes_empty_directories :
  prune git_repo nested_fs = Ok (in_home [])
  /\ forall (self : Repository) (fs : node) (es : list (string * node)),
      wf fs = true ->
      lookup fs (repodir self) = Some (Dir es) ->
      exists fs',
        prune self fs = Ok fs'
        /\ check_dir fs' (repodir self) = true
        /\ (forall rel d,
               rel <> [] ->
               lookup fs (repodir self ++ rel) = Some d ->
               Str.mem (basename (repodir self ++ rel)) (ignore self) = true ->
               lookup fs' (repodir self ++ rel) = Some d)
        /\ (forall rel,
               rel <> [] ->
               Forall (fun nm => Str.mem nm (ignore self) = false) rel ->
               lookup fs' (repodir self ++ rel) <> Some (Dir []))
        /\ prune self fs' = Ok fs'.
Proof.
  split; [reflexivity|].
  intros self fs es Hwf Hp.
  pose proof (wf_lookup _ _ _ Hwf Hp) as Hwfd.
  set (d' := pruned (ignore self) (Dir es)).
  assert (Hp' : lookup (graft d' (repodir self) fs) (repodir self) = Some d')
    by (apply (lookup_graft _ _ _ _ Hp)).
  exists (graft d' (repodir self) fs).
  split; [apply prune_pruned; assumption|].
  split; [unfold check_dir; rewrite Hp'; reflexivity|].
  split; [|split].
  - intros rel d Hne Hl Hm.
    rewrite lookup_app, Hp in Hl. rewrite lookup_app, Hp'.
    rewrite basename_app in Hm by exact Hne.
    apply pruned_keeps_ignored; assumption.
  - intros rel Hne Hf. rewrite lookup_app, Hp'.
    apply pruned_no_empty; assumption.
  - unfold d' in *. rewrite pruned_Dir in Hp'.
    rewrite (prune_pruned self _ _
               (wf_graft _ _ _ Hwf (wf_pruned _ _ Hwfd)) Hp').
    rewrite <- pruned_Dir, pruned_pruned, graft_graft. reflexivity.
Qed.

Lemma prune_removes_empty_directories_witness :
  wf git_fs = true
  /\ exists fs',
      prune git_repo git_fs = Ok fs'
      /\ check_dir fs' (repodir git_repo) = true
      /\ (forall rel d,
             rel <> [] ->
             lookup git_fs (repodir git_repo ++ rel) = Some d ->
             Str.mem (basename (repodir git_repo ++ rel)) (ignore git_repo)
             = true ->
             lookup fs' (repodir git_repo ++ rel) = Some d)
      /\ (forall rel,
             rel <> [] ->
             Forall (fun nm => Str.mem nm (ignore git_repo) = false) rel ->
             lookup fs' (repodir git_repo ++ rel) <> Some (Dir []))
      /\ prune git_repo fs' = Ok fs'.
Proof.
  split; [reflexivity|].
  apply (proj2 prune_removes_empty_directories git_repo git_fs
           [("empty1", Dir [("empty2", Dir [])]);
            (".git", Dir [("objects", Dir [])]);
            ("cache", Dir []);
            ("vim", Dir [("vimrc", File); ("undo", Dir [])])]);
    reflexivity.
Defined.

(** C6 as stated fails in its last part: [repo/.git] is ignored, so
    [prune] does not look below it, and the empty directory
    [repo/.git/objects], whose own name is not ignored, is still there
    after [prune], however often it is run. *)
Lemma prune_leaves_empty_directory :
  prune git_repo git_fs
  = Ok (in_home [(".git", Dir [("objects", Dir [])]);
                 ("cache", Dir []);
                 ("vim", Dir [("vimrc", File)])])
  /\ prune git_repo
       (in_home [(".git", Dir [("objects", Dir [])]);
                 ("cache", Dir []);
                 ("vim", Dir [("vimrc", File)])])
     = Ok (in_home [(".git", Dir [("objects", Dir [])]);
                    ("cache", Dir []);
                    ("vim", Dir [("vimrc", File)])])
  /\ lookup (in_home [(".git", Dir [("objects", Dir [])]);
                      ("cache", Dir []);
                      ("vim", Dir [("vimrc", File)])])
       ["home"; "user"; "repo"; ".git"; "objects"]
     = Some (Dir [])
  /\ Str.mem "objects" (ignore git_repo) = false.
Proof. repeat split. Qed.

(** ** The containment test and containment *)

Lemma translate_literal (s t : string) :
  glob_free s = true ->
  Fnmatch.translate 0 (String.append s t)
  = map Fnmatch.Lit (list_ascii_of_string s) ++ Fnmatch.translate 0 t.
Proof.
  induction s as [|c s IH]; simpl; intros H; [reflexivity|].
  apply andb_true_iff in H. destruct H as [Hc Hs].
  apply negb_true_iff in Hc. apply orb_false_iff in Hc.
  destruct Hc as [Hc H3]. apply orb_false_iff in Hc. destruct Hc as [H1 H2].
  rewrite H1, H2, H3, (IH Hs). reflexivity.
Qed.

Lemma matches_literal (s : string) (items : list Fnmatch.item) (str : string) :
  Fnmatch.matches (map Fnmatch.Lit (list_ascii_of_string s) ++ items) str
  = true
  <-> exists rest,
      str = String.append s rest /\ Fnmatch.matches items rest = true.
Proof.
  revert str. induction s as [|c s IH]; intros str; simpl.
  - split; [intros H; exists str; auto | intros (rest & -> & H); exact H].
  - destruct str as [|d str].
    + split; [discriminate | intros (rest & H & _); discriminate].
    + rewrite andb_true_iff, Ascii.eqb_eq, IH. split.
      * intros (-> & rest & -> & H). exists rest. auto.
      * intros (rest & H & Hm). inversion H; subst. split; [reflexivity|].
        exists rest. auto.
Qed.

Lemma matches_star (s : string) : Fnmatch.matches [Fnmatch.Star] s = true.
Proof. induction s as [|c s IH]; simpl; [reflexivity | exact IH]. Qed.

(** With a root free of pattern characters, the test of [_dotfile] asks
    whether the string of the path starts with that of the root and a
    slash. *)
Lemma inside_prefix (root name : path) :
  glob_free (strpath root) = true ->
  inside root name = true
  <-> exists rest,
      strpath name = String.append (strpath root) (String Str.sep rest).
Proof.
  intros Hg. unfold inside, path_fnmatch, below_pattern.
  change (Str.has_sep (String.append (strpath root) "/*")) with true.
  change (Str.startswith "/" (String.append (strpath root) "/*")) with true.
  cbv iota. simpl negb. cbv iota.
  unfold Fnmatch.fnmatch. rewrite translate_literal by exact Hg.
  change (Fnmatch.translate 0 "/*")
    with (map Fnmatch.Lit (list_ascii_of_string "/") ++ [Fnmatch.Star]).
  rewrite matches_literal. split.
  - intros (r1 & -> & H). apply matches_literal in H.
    destruct H as (r2 & -> & _). exists r2. reflexivity.
  - intros (rest & ->). exists (String Str.sep rest). split; [reflexivity|].
    apply matches_literal. exists rest. split; [reflexivity|].
    apply matches_star.
Qed.

Lemma split_app (a b : string) :
  Str.split (String.append a (String Str.sep b)) = Str.split a ++ Str.split b.
Proof.
  induction a as [|c a IH]; simpl; [reflexivity|].
  destruct (Ascii.eqb c Str.sep); rewrite IH; [reflexivity|].
  destruct (Str.split a) eqn:E; [|reflexivity].
  exfalso. apply (split_nonempty a). exact E.
Qed.

Lemma append_assoc (a b c : string) :
  String.append (String.append a b) c = String.append a (String.append b c).
Proof. induction a as [|x a IH]; simpl; [|rewrite IH]; reflexivity. Qed.

Lemma concat_app (l1 l2 : list string) :
  l1 <> [] -> l2 <> [] ->
  String.concat "/" (l1 ++ l2)
  = String.append (String.concat "/" l1)
      (String Str.sep (String.concat "/" l2)).
Proof.
  intros H1 H2. induction l1 as [|x l1 IH]; [congruence|].
  destruct l1 as [|y l1].
  - simpl. destruct l2; [congruence | reflexivity].
  - change (String.concat "/" ((x :: y :: l1) ++ l2))
      with (String.append x
              (String Str.sep (String.concat "/" ((y :: l1) ++ l2)))).
    rewrite IH by discriminate.
    change (String.concat "/" (x :: y :: l1))
      with (String.append x (String Str.sep (String.concat "/" (y :: l1)))).
    rewrite append_assoc. reflexivity.
Qed.

(** X1: for a root other than [/] whose string holds no pattern character,
    and paths whose components hold no slash, the test of [_dotfile],
    [name.fnmatch('%s/*' % root)], holds exactly of the paths that lie
    below the root. *)
Lemma inside_below (root name : path) :
  root <> [] ->
  glob_free (strpath root) = true ->
  no_sep root ->
  no_sep name ->
  inside root name = true <-> below root name.
Proof.
  intros Hroot Hg Hsr Hsn. rewrite (inside_prefix _ _ Hg).
  unfold strpath, below. split.
  - intros (rest & H). simpl in H. inversion H as [H'].
    destruct name as [|n0 name]; [destruct (String.concat "/" root);
                                  discriminate|].
    apply (f_equal Str.split) in H'.
    rewrite split_app in H'.
    rewrite !split_concat in H' by (assumption || discriminate).
    exists (Str.split rest). split; [apply split_nonempty | exact H'].
  - intros (rel & Hne & ->). exists (String.concat "/" rel).
    rewrite concat_app by assumption. reflexivity.
Qed.

Lemma inside_below_witness :
  glob_free (strpath ["home"; "user"]) = true
  /\ (inside ["home"; "user"] ["home"; "user"; ".vimrc"] = true
      <-> below ["home"; "user"] ["home"; "user"; ".vimrc"]).
Proof.
  split; [reflexivity|].
  apply (inside_below ["home"; "user"] ["home"; "user"; ".vimrc"]).
  - discriminate.
  - reflexivity.
  - repeat constructor.
  - repeat constructor.
Defined.

(** ** Validation and containment *)

Lemma inside_true_below (root name : path) :
  plain_root root ->
  no_sep name ->
  inside root name = true <-> below root name.
Proof.
  intros (Hroot & Hg & Hsr) Hsn. rewrite (inside_prefix _ _ Hg).
  unfold strpath, below. split.
  - intros (rest & H). simpl in H. inversion H as [H'].
    destruct name as [|n0 name]; [destruct (String.concat "/" root);
                                  discriminate|].
    apply (f_equal Str.split) in H'.
    rewrite split_app in H'.
    rewrite !split_concat in H' by (assumption || discriminate).
    exists (Str.split rest). split; [apply split_nonempty | exact H'].
  - intros (rel & Hne & ->). exists (String.concat "/" rel).
    rewrite concat_app by assumption. reflexivity.
Qed.

Lemma inside_false_below (root name : path) :
  plain_root root ->
  no_sep name ->
  inside root name = false <-> ~ below root name.
Proof.
  intros Hr Hn. rewrite <- (inside_true_below root name Hr Hn).
  destruct (inside root name); split; intros H.
  - discriminate H.
  - exfalso. apply H. reflexivity.
  - discriminate.
  - reflexivity.
Qed.

Ltac plain_root :=
  split; [discriminate | split; [reflexivity | repeat constructor]].

Ltac is_below rel := exists rel; split; [discriminate | reflexivity].

Ltac not_below :=
  let H := fresh in
  let E := fresh in
  intros H; destruct H as (? & _ & E); simpl in E; discriminate E.




(** C3, as the code has it, with a home directory and a repository
    directory other than [/] whose strings hold no pattern character: the
    test for the home directory comes first, so a path that lies below the
    repository fails with [InRepository] when it lies below the home
    directory as well, and with [NotRootedInHome] when it does not. *)
Theorem validate_in_repository :
  forall (self : Repository) (fs : node) (name : path),
    plain_root (homedir self) ->
    plain_root (repodir self) ->
    no_sep name ->
    below (repodir self) name ->
    (below (homedir self) name ->
     _dotfile self fs name = Raise (InRepository name))
    /\ (~ below (homedir self) name ->
        _dotfile self fs name = Raise (NotRootedInHome name)).
Proof.
  intros self fs name Hh Hr Hn Hrepo.
  apply (inside_true_below _ _ Hr Hn) in Hrepo.
  destruct (dotfile_in_repository self fs name Hrepo) as (T1 & T2).
  split; intros H.
  - apply T1, (inside_true_below _ _ Hh Hn), H.
  - apply T2, (inside_false_below _ _ Hh Hn), H.
Qed.

Lemma validate_in_repository_witness :
  plain_root (homedir outside_repo)
  /\ plain_root (repodir outside_repo)
  /\ below (repodir home_repo) ["home"; "user"; "repo"; "vimrc"]
  /\ below (homedir home_repo) ["home"; "user"; "repo"; "vimrc"]
  /\ _dotfile home_repo home_fs ["home"; "user"; "repo"; "vimrc"]
     = Raise (InRepository ["home"; "user"; "repo"; "vimrc"])
  /\ below (repodir outside_repo) ["srv"; "dotfiles"; "vimrc"]
  /\ ~ below (homedir outside_repo) ["srv"; "dotfiles"; "vimrc"]
  /\ _dotfile outside_repo outside_fs ["srv"; "dotfiles"; "vimrc"]
     = Raise (NotRootedInHome ["srv"; "dotfiles"; "vimrc"]).
Proof.
  split; [plain_root|]. split; [plain_root|].
  split; [is_below ["vimrc"]|].
  split; [is_below ["repo"; "vimrc"]|].
  split.
  { apply (proj1 (validate_in_repository home_repo home_fs
                    ["home"; "user"; "repo"; "vimrc"]
                    ltac:(plain_root) ltac:(plain_root)
                    ltac:(repeat constructor) ltac:(is_below ["vimrc"]))).
    is_below ["repo"; "vimrc"]. }
  split; [is_below ["vimrc"]|].
  split; [not_below|].
  apply (proj2 (validate_in_repository outside_repo outside_fs
                  ["srv"; "dotfiles"; "vimrc"]
                  ltac:(plain_root) ltac:(plain_root)
                  ltac:(repeat constructor) ltac:(is_below ["vimrc"]))).
  not_below.
Defined.




(** ** A single directory, and the names [contents] gives *)

Lemma expand_no_dirs (self : Repository) (fs : node) (fuel : nat) :
  forall (i : nat) (paths : list path),
    (forall p, In p (skipn i paths) -> check_dir fs p = false) ->
    length paths - i < fuel ->
    expand self fs fuel i paths = Ok paths.
Proof.
  induction fuel as [|fuel IH]; intros i paths Hnd Hlt; [lia|].
  simpl. destruct (nth_error paths i) as [p|] eqn:Hn; [|reflexivity].
  pose proof (nth_error_skipn _ _ _ Hn) as Hs.
  assert (Hi : i < length paths) by (apply nth_error_Some; congruence).
  rewrite (Hnd p) by (rewrite Hs; left; reflexivity).
  apply IH; [|lia].
  intros q Hq. apply Hnd. rewrite Hs. right. exact Hq.
Qed.

(** X2: handed one directory, [dotfiles] validates exactly the paths
    [_contents] yields below it, in that order. *)
Theorem dotfiles_single_directory :
  forall (self : Repository) (fs : node) (dir : path)
         (es : list (string * node)) out,
    wf fs = true ->
    lookup fs dir = Some (Dir es) ->
    dotfiles self fs [dir] out ->
    out = Ok (validated self fs (files_below (ignore self) dir (Dir es)),
              echoed self fs (files_below (ignore self) dir (Dir es))).
Proof.
  intros self fs dir es out Hwf Hp (listed & Hl & <-).
  apply set_listing_one in Hl. subst listed.
  apply dotfiles_from_expanded.
  pose proof (contents_below self fs dir es Hwf Hp) as Hc.
  assert (Hd : check_dir fs dir = true)
    by (unfold check_dir; rewrite Hp; reflexivity).
  remember (files_below (ignore self) dir (Dir es)) as found eqn:Ef.
  assert (E : forall fuel,
             expand self fs (S fuel) 0 [dir] = expand self fs fuel 1 found).
  { intros fuel. simpl. rewrite Hd, Hc. simpl.
    rewrite path_eqb_refl. reflexivity. }
  unfold rounds. rewrite E.
  apply expand_no_dirs.
  - intros p Hin. apply (contents_no_dir self fs dir _ Hwf Hd Hc).
    rewrite <- (firstn_skipn 1 found). apply in_or_app. right. exact Hin.
  - simpl map. rewrite Hd, Hc. simpl. lia.
Qed.

Lemma dotfiles_single_directory_witness :
  wf home_fs = true
  /\ dotfiles home_repo home_fs [dir1]
       (Ok ([ tracked ["dir"; "c"; "d"]; tracked ["dir"; "a"] ], [])).
Proof.
  split; [reflexivity|].
  assert (H : dotfiles home_repo home_fs [dir1]
                (dotfiles_from home_repo home_fs [dir1])).
  { exists [dir1]. split; [|reflexivity]. split.
    - repeat constructor. simpl. tauto.
    - intros p. tauto. }
  pose proof (dotfiles_single_directory home_repo home_fs dir1
                [("a", File); ("b", File); ("c", Dir [("d", File)])]
                _ eq_refl eq_refl H) as E.
  rewrite E in H. exact H.
Defined.

Lemma wf_lookup_valid (rel : list string) :
  forall (n d : node),
    wf n = true -> lookup n rel = Some d -> valid_rel rel = true.
Proof.
  induction rel as [|nm rel IH]; intros n d Hwf Hl; [reflexivity|].
  destruct n as [|es]; [discriminate|]. simpl in Hl.
  destruct (assoc nm es) as [c|] eqn:Ha; [|discriminate].
  destruct (wf_child _ _ _ Hwf (assoc_In _ _ _ Ha)) as [Hv Hc].
  simpl. rewrite Hv. apply (IH c d Hc Hl).
Qed.

(** X3: [contents] and the mapping agree: the name of every dotfile that
    [contents] returns maps back to its target under [_name_to_target]. *)
Theorem contents_names_map_back :
  forall (self : Repository) (fs : node) (es : list (string * node))
         (ds : list Dotfile) (d : Dotfile),
    wf fs = true ->
    lookup fs (repodir self) = Some (Dir es) ->
    contents self fs = Ok ds ->
    In d ds ->
    _name_to_target self (name d) = target d.
Proof.
  intros self fs es ds d Hwf Hp Hc Hin.
  destruct (contents_spec self fs (repodir self) es Hwf Hp)
    as (found & Hf & _ & Hspec).
  unfold contents in Hc. rewrite Hf in Hc. simpl in Hc.
  inversion Hc; subst ds.
  apply (Permutation_in _ (sorted_perm _)) in Hin.
  apply in_map_iff in Hin. destruct Hin as (e & <- & He).
  apply Hspec in He. destruct He as (rel & _ & -> & Hl & _).
  simpl. apply repo_home_repo.
  rewrite lookup_app, Hp in Hl.
  apply (wf_lookup_valid rel (Dir es) File (wf_lookup _ _ _ Hwf Hp) Hl).
Qed.

Lemma contents_names_map_back_witness :
  wf zam_fs = true
  /\ In {| name := ["home"; "user"; ".m"];
           target := ["home"; "user"; "repo"; "m"] |}
        [ {| name := ["home"; "user"; ".a"];
             target := ["home"; "user"; "repo"; "a"] |};
          {| name := ["home"; "user"; ".m"];
             target := ["home"; "user"; "repo"; "m"] |};
          {| name := ["home"; "user"; ".z"];
             target := ["home"; "user"; "repo"; "z"] |} ]
  /\ _name_to_target plain_repo ["home"; "user"; ".m"]
     = ["home"; "user"; "repo"; "m"].
Proof.
  split; [reflexivity|].
  assert (H : In {| name := ["home"; "user"; ".m"];
                    target := ["home"; "user"; "repo"; "m"] |}
                 [ {| name := ["home"; "user"; ".a"];
                      target := ["home"; "user"; "repo"; "a"] |};
                   {| name := ["home"; "user"; ".m"];
                      target := ["home"; "user"; "repo"; "m"] |};
                   {| name := ["home"; "user"; ".z"];
                      target := ["home"; "user"; "repo"; "z"] |} ])
    by (simpl; tauto).
  split; [exact H|].
  apply (contents_names_map_back plain_repo zam_fs
           [("z", File); ("a", File); ("m", File)] _ _
           eq_refl eq_refl eq_refl H).
Defined.

(* ================================================================== *)
(** * Further properties *)

(** ** What [prune] leaves alone *)

Lemma assoc_alter_other (f : node -> node) (nm k : string)
  (es : list (string * node)) :
  nm <> k -> assoc k (alter f nm es) = assoc k es.
Proof.
  intros Hne. induction es as [|[k0 c0] es IH]; simpl; [reflexivity|].
  destruct (String.eqb_spec nm k0) as [->|Hn0]; simpl.
  - destruct (String.eqb_spec k k0); [congruence | reflexivity].
  - destruct (String.eqb k k0); [reflexivity | exact IH].
Qed.

Lemma prefix_dec (p q : path) :
  (exists rel, q = p ++ rel) \/ (forall rel, q <> p ++ rel).
Proof.
  revert q. induction p as [|a p IH]; intros q.
  - left. exists q. reflexivity.
  - destruct q as [|b q]; [right; discriminate|].
    destruct (string_dec a b) as [->|Hne].
    + destruct (IH q) as [(rel & ->) | H].
      * left. exists rel. reflexivity.
      * right. intros rel E. inversion E. apply (H rel). assumption.
    + right. intros rel E. inversion E. congruence.
Qed.

(** Off the path to [p], replacing the node at [p] changes no kind. *)
Lemma lookup_update_at_off (f : node -> node) (p : path) :
  forall (fs : node) (q : path),
    (forall rel, q <> p ++ rel) ->
    option_map is_dir (lookup (update_at f p fs) q)
    = option_map is_dir (lookup fs q).
Proof.
  induction p as [|nm p IH]; intros fs q Hq.
  - exfalso. apply (Hq q). reflexivity.
  - simpl. destruct fs as [|es]; [reflexivity|].
    destruct q as [|k q]; [reflexivity|]. simpl.
    destruct (string_dec nm k) as [->|Hne].
    + rewrite assoc_alter_same. destruct (assoc k es) as [c|]; simpl;
        [|reflexivity].
      apply IH. intros rel E. apply (Hq rel). simpl. rewrite E. reflexivity.
    + rewrite (assoc_alter_other _ _ _ _ Hne). reflexivity.
Qed.

Lemma lookup_graft_below (d : node) (p : path) (fs m : node)
  (rel : list string) :
  lookup fs p = Some m ->
  lookup (graft d p fs) (p ++ rel) = lookup d rel.
Proof.
  intros H. rewrite lookup_app, (lookup_graft _ _ _ _ H). reflexivity.
Qed.

Lemma pruned_is_dir (ign : list string) (n : node) :
  is_dir (pruned ign n) = is_dir n.
Proof. destruct n; reflexivity. Qed.

(** Whatever is found in the pruned tree was there before, as the same
    kind of node. *)
Lemma pruned_kind (ign : list string) (rel : list string) :
  forall (n d' : node),
    wf n = true ->
    lookup (pruned ign n) rel = Some d' ->
    exists d, lookup n rel = Some d /\ is_dir d = is_dir d'.
Proof.
  induction rel as [|nm rel IH]; intros n d' Hwf Hl.
  - simpl in Hl. inversion Hl. exists n. split; [reflexivity|].
    symmetry. apply pruned_is_dir.
  - destruct n as [|es]; [discriminate|].
    rewrite pruned_Dir in Hl. simpl lookup in Hl.
    rewrite (assoc_pruned ign nm es Hwf) in Hl. simpl.
    destruct (assoc nm es) as [c|] eqn:Ha; [|discriminate].
    pose proof (wf_child _ _ _ Hwf (assoc_In _ _ _ Ha)) as [_ Hwfc].
    destruct (Str.mem nm ign); [exists d'; auto|].
    apply (IH c d' Hwfc).
    destruct (pruned ign c) as [|[|e ec]]; try discriminate; exact Hl.
Qed.

(** Files stay. *)
Lemma pruned_keeps_file (ign : list string) (rel : list string) :
  forall (n : node),
    wf n = true ->
    lookup n rel = Some File ->
    lookup (pruned ign n) rel = Some File.
Proof.
  induction rel as [|nm rel IH]; intros n Hwf Hl.
  - simpl in Hl. inversion Hl. reflexivity.
  - destruct n as [|es]; [discriminate|]. simpl in Hl.
    destruct (assoc nm es) as [c|] eqn:Ha; [|discriminate].
    pose proof (wf_child _ _ _ Hwf (assoc_In _ _ _ Ha)) as [_ Hwfc].
    rewrite pruned_Dir. simpl lookup.
    rewrite (assoc_pruned ign nm es Hwf), Ha.
    destruct (Str.mem nm ign); [exact Hl|].
    pose proof (IH c Hwfc Hl) as Hl'.
    destruct (pruned ign c) as [|[|e ec]] eqn:E; try exact Hl'.
    destruct rel; discriminate.
Qed.

Lemma prune_result (self : Repository) (fs fs' : node)
  (es : list (string * node)) :
  wf fs = true ->
  lookup fs (repodir self) = Some (Dir es) ->
  prune self fs = Ok fs' ->
  fs' = graft (pruned (ignore self) (Dir es)) (repodir self) fs.
Proof.
  intros Hwf Hp H. rewrite (prune_pruned self fs es Hwf Hp) in H.
  inversion H. reflexivity.
Qed.

(** X4: [prune] removes directories only: a path is a file after [prune]
    exactly when it was one before, a directory after [prune] was one
    before, a directory off the repository stays, and so does every
    directory that has a file anywhere below it. *)
Theorem prune_removes_only_directories :
  forall (self : Repository) (fs fs' : node) (es : list (string * node)),
    wf fs = true ->
    lookup fs (repodir self) = Some (Dir es) ->
    prune self fs = Ok fs' ->
    (forall q, lookup fs' q = Some File <-> lookup fs q = Some File)
    /\ (forall q, check_dir fs' q = true -> check_dir fs q = true)
    /\ (forall q,
           (forall rel, q <> repodir self ++ rel) ->
           check_dir fs' q = check_dir fs q)
    /\ (forall q rel,
           check_dir fs q = true ->
           lookup fs (q ++ rel) = Some File ->
           check_dir fs' q = true).
Proof.
  intros self fs fs' es Hwf Hp Hpr.
  pose proof (prune_result self fs fs' es Hwf Hp Hpr) as ->.
  pose proof (wf_lookup _ _ _ Hwf Hp) as Hwfd.
  set (d' := pruned (ignore self) (Dir es)).
  assert (Hkind : forall q,
             (forall rel, q <> repodir self ++ rel) ->
             option_map is_dir (lookup (graft d' (repodir self) fs) q)
             = option_map is_dir (lookup fs q)).
  { intros q Hq. apply lookup_update_at_off. exact Hq. }
  assert (Hfile : forall q,
             lookup (graft d' (repodir self) fs) q = Some File
             <-> lookup fs q = Some File).
  { intros q. destruct (prefix_dec (repodir self) q) as [(rel & ->) | Hq].
    - rewrite (lookup_graft_below _ _ _ _ rel Hp), lookup_app, Hp. split.
      + intros H. apply pruned_kind in H; [|exact Hwfd].
        destruct H as (d & Hd & Hk). destruct d; [exact Hd | discriminate].
      + apply pruned_keeps_file. exact Hwfd.
    - specialize (Hkind q Hq).
      destruct (lookup (graft d' (repodir self) fs) q) as [[|?]|];
        destruct (lookup fs q) as [[|?]|]; simpl in Hkind;
        try discriminate; split; intros; try discriminate; reflexivity. }
  assert (Hdir : forall q,
             check_dir (graft d' (repodir self) fs) q = true ->
             check_dir fs q = true).
  { intros q. unfold check_dir.
    destruct (prefix_dec (repodir self) q) as [(rel & ->) | Hq].
    - rewrite (lookup_graft_below _ _ _ _ rel Hp), lookup_app, Hp.
      destruct (lookup d' rel) as [x|] eqn:E; [|discriminate].
      apply pruned_kind in E; [|exact Hwfd]. destruct E as (d & -> & ->).
      tauto.
    - specialize (Hkind q Hq).
      destruct (lookup (graft d' (repodir self) fs) q) as [x|];
        destruct (lookup fs q) as [y|]; simpl in Hkind;
        try discriminate.
      inversion Hkind as [E]. rewrite E. tauto. }
  split; [exact Hfile|]. split; [exact Hdir|]. split.
  - intros q Hq. specialize (Hkind q Hq). unfold check_dir.
    destruct (lookup (graft d' (repodir self) fs) q) as [x|];
      destruct (lookup fs q) as [y|]; simpl in Hkind;
      try discriminate; [|reflexivity].
    inversion Hkind. reflexivity.
  - intros q rel Hd Hf. pose proof (proj2 (Hfile _) Hf) as Hf'.
    rewrite lookup_app in Hf'. unfold check_dir.
    destruct (lookup (graft d' (repodir self) fs) q) as [[|ec]|];
      try discriminate; [|reflexivity].
    destruct rel as [|nm rel]; [|discriminate].
    rewrite app_nil_r in Hf. unfold check_dir in Hd. rewrite Hf in Hd.
    discriminate.
Qed.

Lemma prune_removes_only_directories_witness :
  wf git_fs = true
  /\ prune git_repo git_fs = Ok git_fs_pruned
  /\ (forall q, lookup git_fs_pruned q = Some File
                <-> lookup git_fs q = Some File)
  /\ (forall q, check_dir git_fs_pruned q = true -> check_dir git_fs q = true)
  /\ (forall q,
         (forall rel, q <> repodir git_repo ++ rel) ->
         check_dir git_fs_pruned q = check_dir git_fs q)
  /\ (forall q rel,
         check_dir git_fs q = true ->
         lookup git_fs (q ++ rel) = Some File ->
         check_dir git_fs_pruned q = true).
Proof.
  split; [reflexivity|]. split; [reflexivity|].
  apply (prune_removes_only_directories git_repo git_fs git_fs_pruned
           [("empty1", Dir [("empty2", Dir [])]);
            (".git", Dir [("objects", Dir [])]);
            ("cache", Dir []);
            ("vim", Dir [("vimrc", File); ("undo", Dir [])])]);
    reflexivity.
Defined.

(** ** [prune] and [contents] *)

Lemma flat_map_filter_nil {A B} (f : A -> list B) (keep : A -> bool)
  (l : list A) :
  (forall a, In a l -> keep a = false -> f a = []) ->
  flat_map f (filter keep l) = flat_map f l.
Proof.
  induction l as [|a l IH]; simpl; intros H; [reflexivity|].
  destruct (keep a) eqn:E; simpl.
  - rewrite IH by (intros; apply H; auto). reflexivity.
  - rewrite (H a (or_introl eq_refl) E).
    apply IH. intros; apply H; auto.
Qed.

Lemma flat_map_map_ext {A B C} (f : B -> list C) (g : A -> B)
  (h : A -> list C) (l : list A) :
  (forall a, In a l -> f (g a) = h a) ->
  flat_map f (map g l) = flat_map h l.
Proof.
  induction l as [|a l IH]; simpl; intros H; [reflexivity|].
  rewrite (H a (or_introl eq_refl)). rewrite IH by (intros; apply H; auto).
  reflexivity.
Qed.

(** Pruning a tree changes nothing of what [_contents] yields below it. *)
Lemma files_below_pruned (ign : list string) (n : node) :
  forall base,
    files_below ign base (pruned ign n) = files_below ign base n.
Proof.
  induction n as [|es IH] using node_ind'; intros base; [reflexivity|].
  rewrite Forall_forall in IH.
  rewrite pruned_Dir. simpl files_below. f_equal.
  - rewrite flat_map_filter_nil.
    + apply flat_map_map_ext. intros [nm c] Hin. simpl.
      destruct (Str.mem nm ign); [reflexivity|]. apply (IH _ Hin).
    + intros [nm c] _ Hk. apply negb_false_iff in Hk.
      unfold prunable in Hk. simpl in Hk.
      apply andb_true_iff in Hk. destruct Hk as [Hm Hc].
      apply negb_true_iff in Hm. rewrite Hm.
      destruct c as [|[|e ec]]; try discriminate. reflexivity.
  - rewrite flat_map_filter_nil.
    + apply flat_map_map_ext. intros [nm c] _. simpl.
      destruct (Str.mem nm ign); [reflexivity|].
      rewrite pruned_is_dir. reflexivity.
    + intros [nm c] _ Hk. apply negb_false_iff in Hk.
      unfold prunable in Hk. simpl in Hk.
      apply andb_true_iff in Hk. destruct Hk as [_ Hc].
      destruct c as [|[|e ec]]; try discriminate. reflexivity.
Qed.

(** X5: [prune] changes nothing of what [contents] returns: after a
    [prune], [contents] gives the list it gave before. *)
Theorem prune_keeps_contents :
  forall (self : Repository) (fs fs' : node) (es : list (string * node)),
    wf fs = true ->
    lookup fs (repodir self) = Some (Dir es) ->
    prune self fs = Ok fs' ->
    contents self fs' = contents self fs
    /\ exists ds, contents self fs = Ok ds.
Proof.
  intros self fs fs' es Hwf Hp Hpr.
  pose proof (prune_result self fs fs' es Hwf Hp Hpr) as ->.
  pose proof (wf_lookup _ _ _ Hwf Hp) as Hwfd.
  assert (Hp' : lookup (graft (pruned (ignore self) (Dir es))
                          (repodir self) fs) (repodir self)
                = Some (pruned (ignore self) (Dir es)))
    by (apply (lookup_graft _ _ _ _ Hp)).
  unfold contents.
  rewrite (contents_below self fs (repodir self) es Hwf Hp).
  rewrite pruned_Dir in Hp'.
  rewrite (contents_below self _ (repodir self) _
             (wf_graft _ _ _ Hwf (wf_pruned _ _ Hwfd)) Hp').
  rewrite <- pruned_Dir, files_below_pruned.
  split; [reflexivity|]. simpl. eauto.
Qed.

Lemma prune_keeps_contents_witness :
  wf git_fs = true
  /\ contents git_repo git_fs_pruned = contents git_repo git_fs
  /\ exists ds, contents git_repo git_fs = Ok ds.
Proof.
  split; [reflexivity|].
  apply (prune_keeps_contents git_repo git_fs git_fs_pruned
           [("empty1", Dir [("empty2", Dir [])]);
            (".git", Dir [("objects", Dir [])]);
            ("cache", Dir []);
            ("vim", Dir [("vimrc", File); ("undo", Dir [])])]);
    reflexivity.
Defined.

(** ** What [dotfiles] returns *)

Lemma dotfile_ok (self : Repository) (fs : node) (p : path) (d : Dotfile) :
  _dotfile self fs p = Ok d ->
  d = {| name := p; target := _name_to_target self p |}
  /\ inside (homedir self) p = true
  /\ inside (repodir self) p = false
  /\ Str.mem (basename (_name_to_target self p)) (ignore self) = false
  /\ check_dir fs p = false.
Proof.
  rewrite dotfile_cascade.
  destruct (inside (homedir self) p); simpl; [|discriminate].
  destruct (inside (repodir self) p); [discriminate|].
  destruct (Str.mem _ _); [discriminate|].
  destruct (check_dir fs p); [discriminate|].
  intros H. inversion H. auto.
Qed.

Lemma In_validated (self : Repository) (fs : node) (l : list path)
  (d : Dotfile) :
  In d (validated self fs l)
  <-> exists p, In p l /\ _dotfile self fs p = Ok d.
Proof.
  unfold validated. rewrite in_flat_map. split.
  - intros (p & Hp & Hd). exists p. split; [exact Hp|].
    destruct (_dotfile self fs p) as [d0|]; [|destruct Hd].
    destruct Hd as [->|[]]. reflexivity.
  - intros (p & Hp & Hd). exists p. split; [exact Hp|].
    rewrite Hd. left. reflexivity.
Qed.

Lemma In_echoed (self : Repository) (fs : node) (l : list path)
  (err : DotfileException) :
  In err (echoed self fs l)
  <-> exists p, In p l /\ _dotfile self fs p = Raise err.
Proof.
  unfold echoed. rewrite in_flat_map. split.
  - intros (p & Hp & Hd). exists p. split; [exact Hp|].
    destruct (_dotfile self fs p) as [|e0]; [destruct Hd|].
    destruct Hd as [->|[]]. reflexivity.
  - intros (p & Hp & Hd). exists p. split; [exact Hp|].
    rewrite Hd. left. reflexivity.
Qed.

Lemma validated_NoDup (self : Repository) (fs : node) (l : list path) :
  NoDup l -> NoDup (validated self fs l).
Proof.
  unfold validated. induction l as [|p l IH]; simpl; intros H;
    [constructor|].
  inversion H as [|? ? Hp Hl]; subst.
  destruct (_dotfile self fs p) as [d|] eqn:E; simpl; [|apply IH; exact Hl].
  constructor; [|apply IH; exact Hl].
  intros Hin. apply In_validated in Hin. destruct Hin as (q & Hq & Hd).
  apply dotfile_ok in E, Hd. destruct E as [-> _]. destruct Hd as [Hd _].
  inversion Hd. congruence.
Qed.

(** X6: handed paths none of which is a directory, [dotfiles] deals with
    each of them once, whatever the input repeats: the result is made of
    some listing of the input without repetitions, it holds the dotfile of
    each path that passes [_dotfile] once, and nothing else. *)
Theorem dotfiles_of_files :
  forall (self : Repository) (fs : node) (input : list path) out,
    (forall p, In p input -> check_dir fs p = false) ->
    dotfiles self fs input out ->
    exists listed,
      set_listing input listed
      /\ out = Ok (validated self fs listed, echoed self fs listed)
      /\ NoDup (validated self fs listed)
      /\ (forall d, In d (validated self fs listed)
                    <-> exists p, In p input /\ _dotfile self fs p = Ok d).
Proof.
  intros self fs input out Hnd (listed & Hl & <-).
  exists listed. split; [exact Hl|]. destruct Hl as [Hl1 Hl2].
  split; [|split].
  - apply dotfiles_from_expanded. apply expand_no_dirs.
    + intros p Hp. apply Hnd, Hl2. exact Hp.
    + unfold rounds. lia.
  - apply validated_NoDup. exact Hl1.
  - intros d. rewrite In_validated. split; intros (p & Hp & Hd); exists p;
      (split; [apply Hl2; exact Hp | exact Hd]).
Qed.

Lemma dotfiles_of_files_witness :
  dotfiles home_repo home_fs [dir1_a; dir1_b; dir1_a]
    (dotfiles_from home_repo home_fs [dir1_b; dir1_a])
  /\ exists listed,
      set_listing [dir1_a; dir1_b; dir1_a] listed
      /\ dotfiles_from home_repo home_fs [dir1_b; dir1_a]
         = Ok (validated home_repo home_fs listed,
               echoed home_repo home_fs listed)
      /\ NoDup (validated home_repo home_fs listed)
      /\ (forall d, In d (validated home_repo home_fs listed)
                    <-> exists p, In p [dir1_a; dir1_b; dir1_a]
                                  /\ _dotfile home_repo home_fs p = Ok d).
Proof.
  assert (H : dotfiles home_repo home_fs [dir1_a; dir1_b; dir1_a]
                (dotfiles_from home_repo home_fs [dir1_b; dir1_a])).
  { exists [dir1_b; dir1_a]. split; [|reflexivity]. split.
    - repeat constructor; simpl; intuition discriminate.
    - intros p. simpl. tauto. }
  split; [exact H|].
  apply (dotfiles_of_files home_repo home_fs [dir1_a; dir1_b; dir1_a] _);
    [|exact H].
  intros p [<-|[<-|[<-|[]]]]; reflexivity.
Defined.

Lemma In_list_remove (x p : path) (l : list path) :
  In p l -> p <> x -> In p (list_remove x l).
Proof.
  induction l as [|a l IH]; simpl; [tauto|].
  intros [->|H] Hne.
  - destruct (Path.eqb x p) eqn:E; [|left; reflexivity].
    apply path_eqb_eq in E. congruence.
  - destruct (Path.eqb x a); [exact H | right; apply IH; assumption].
Qed.

Lemma list_remove_incl (x p : path) (l : list path) :
  In p (list_remove x l) -> In p l.
Proof.
  induction l as [|a l IH]; simpl; [tauto|].
  destruct (Path.eqb x a); [auto|]. intros [H|H]; auto.
Qed.

(** What holds of the list before the loop and is kept by a round of the
    loop holds of the list the loop returns. *)
Lemma expand_invariant (self : Repository) (fs : node)
  (P : list path -> Prop) :
  (forall paths path found,
      P paths -> In path paths -> check_dir fs path = true ->
      _contents self fs path = Ok found ->
      P (list_remove path (paths ++ found))) ->
  forall fuel i paths expanded,
    P paths -> expand self fs fuel i paths = Ok expanded -> P expanded.
Proof.
  intros Hstep. induction fuel as [|fuel IH]; intros i paths expanded HP;
    simpl; [discriminate|].
  destruct (nth_error paths i) as [p|] eqn:Hn.
  - destruct (check_dir fs p) eqn:Hd; [|apply IH; exact HP].
    destruct (_contents self fs p) as [found|] eqn:Hc; simpl;
      [|discriminate].
    apply IH. apply Hstep; try assumption.
    apply (nth_error_In _ _ Hn).
  - intros H. inversion H. subst. exact HP.
Qed.

(** X7: whatever [dotfiles] is handed on a well-formed file system, every
    path of the input that is not a directory is dealt with: its dotfile is
    in the result when it passes [_dotfile], its exception is echoed when
    it does not.  And every dotfile of the result is one [_dotfile] made of
    a path of the input or of a path [_contents] yields below a directory
    of the input. *)
Theorem dotfiles_sound_and_complete_for_files :
  forall (self : Repository) (fs : node) (input : list path) out,
    wf fs = true ->
    dotfiles self fs input out ->
    exists ds errs,
      out = Ok (ds, errs)
      /\ (forall p d,
             In p input -> check_dir fs p = false ->
             _dotfile self fs p = Ok d -> In d ds)
      /\ (forall p err,
             In p input -> check_dir fs p = false ->
             _dotfile self fs p = Raise err -> In err errs)
      /\ (forall d,
             In d ds ->
             exists q,
               _dotfile self fs q = Ok d
               /\ (In q input
                   \/ exists dir found,
                       In dir input /\ check_dir fs dir = true
                       /\ _contents self fs dir = Ok found /\ In q found)).
Proof.
  intros self fs input out Hwf (listed & [_ Hl] & <-).
  destruct (expand_rounds self fs Hwf listed) as (expanded & He).
  exists (validated self fs expanded), (echoed self fs expanded).
  split; [apply dotfiles_from_expanded; exact He|].
  assert (Hkeep : forall p, In p listed -> check_dir fs p = false ->
                            In p expanded).
  { intros p Hp Hd.
    eapply (expand_invariant self fs (fun l => In p l));
      [| exact Hp | exact He].
    intros paths path found HP _ Hdir _.
    apply In_list_remove; [apply in_or_app; left; exact HP|].
    intros ->. congruence. }
  assert (Hfrom : forall q, In q expanded ->
                    In q listed
                    \/ exists dir found,
                        In dir listed /\ check_dir fs dir = true
                        /\ _contents self fs dir = Ok found /\ In q found).
  { eapply (expand_invariant self fs
             (fun l => forall q, In q l ->
                In q listed
                \/ exists dir found,
                    In dir listed /\ check_dir fs dir = true
                    /\ _contents self fs dir = Ok found /\ In q found));
      [| | exact He]; [|auto].
    intros paths path found HP Hin Hdir Hc q Hq.
    apply list_remove_incl in Hq. apply in_app_or in Hq.
    destruct Hq as [Hq|Hq]; [apply HP; exact Hq|].
    right. exists path, found. repeat split; try assumption.
    destruct (HP path Hin) as [H|(dir & found' & _ & Hd' & Hc' & Hin')];
      [exact H|].
    rewrite (contents_no_dir self fs dir found' Hwf Hd' Hc' path Hin')
      in Hdir. discriminate. }
  split; [|split].
  - intros p d Hp Hd Hok. apply In_validated. exists p.
    split; [apply Hkeep; [apply Hl; exact Hp | exact Hd] | exact Hok].
  - intros p err Hp Hd Herr. apply In_echoed. exists p.
    split; [apply Hkeep; [apply Hl; exact Hp | exact Hd] | exact Herr].
  - intros d Hd. apply In_validated in Hd. destruct Hd as (q & Hq & Hok).
    exists q. split; [exact Hok|].
    destruct (Hfrom q Hq) as [H|(dir & found & Hdir & H)].
    + left. apply Hl. exact H.
    + right. exists dir, found. split; [apply Hl; exact Hdir | exact H].
Qed.

Lemma dotfiles_sound_and_complete_for_files_witness :
  wf home_fs = true
  /\ dotfiles home_repo home_fs [dir1; dir2; dir1_a]
       (dotfiles_from home_repo home_fs [dir1; dir2; dir1_a])
  /\ exists ds errs,
      dotfiles_from home_repo home_fs [dir1; dir2; dir1_a] = Ok (ds, errs)
      /\ In (tracked ["dir"; "a"]) ds.
Proof.
  split; [reflexivity|].
  assert (H : dotfiles home_repo home_fs [dir1; dir2; dir1_a]
                (dotfiles_from home_repo home_fs [dir1; dir2; dir1_a])).
  { exists [dir1; dir2; dir1_a]. split; [|reflexivity]. split.
    - repeat constructor; simpl; intuition discriminate.
    - intros p. tauto. }
  split; [exact H|].
  destruct (dotfiles_sound_and_complete_for_files home_repo home_fs
              [dir1; dir2; dir1_a] _ eq_refl H)
    as (ds & errs & E & Hfiles & _).
  exists ds, errs. split; [exact E|].
  apply (Hfiles dir1_a); [simpl; tauto | reflexivity | reflexivity].
Defined.

(** ** Where [_name_to_target] can lead without the dot convention *)





(** ** The order [contents] returns *)

Lemma target_to_name_injective (self : Repository) (rel1 rel2 : list string) :
  valid_rel rel1 = true -> valid_rel rel2 = true ->
  _target_to_name self (repodir self ++ rel1)
  = _target_to_name self (repodir self ++ rel2) ->
  rel1 = rel2.
Proof.
  intros H1 H2 E. apply (f_equal (_name_to_target self)) in E.
  rewrite !repo_home_repo in E by assumption.
  apply app_inv_head in E. exact E.
Qed.

(** X9: no two dotfiles that [contents] returns have the same name, and
    none has the same target. *)
Theorem contents_names_differ :
  forall (self : Repository) (fs : node) (es : list (string * node))
         (ds : list Dotfile),
    wf fs = true ->
    lookup fs (repodir self) = Some (Dir es) ->
    contents self fs = Ok ds ->
    NoDup (map name ds) /\ NoDup (map target ds).
Proof.
  intros self fs es ds Hwf Hp Hc.
  destruct (contents_spec self fs (repodir self) es Hwf Hp)
    as (found & Hf & Hnd & Hspec).
  unfold contents in Hc. rewrite Hf in Hc. simpl in Hc.
  inversion Hc; subst ds.
  assert (Hvalid : forall e, In e found ->
            exists rel, e = repodir self ++ rel /\ valid_rel rel = true).
  { intros e He. apply Hspec in He. destruct He as (rel & _ & -> & Hl & _).
    exists rel. split; [reflexivity|].
    rewrite lookup_app, Hp in Hl.
    apply (wf_lookup_valid rel (Dir es) File (wf_lookup _ _ _ Hwf Hp) Hl). }
  split.
  - apply (Permutation_NoDup
             (Permutation_map name (Permutation_sym (sorted_perm _)))).
    rewrite map_map. simpl.
    apply Finite.Injective_map_NoDup_in; [|exact Hnd].
    intros x y Hx Hy E.
    destruct (Hvalid x Hx) as (r1 & -> & V1).
    destruct (Hvalid y Hy) as (r2 & -> & V2).
    rewrite (target_to_name_injective self r1 r2 V1 V2 E). reflexivity.
  - apply (Permutation_NoDup
             (Permutation_map target (Permutation_sym (sorted_perm _)))).
    rewrite map_map. simpl. rewrite map_id. exact Hnd.
Qed.

Lemma contents_names_differ_witness :
  wf zam_fs = true
  /\ NoDup (map name
              [ {| name := ["home"; "user"; ".a"];
                   target := ["home"; "user"; "repo"; "a"] |};
                {| name := ["home"; "user"; ".m"];
                   target := ["home"; "user"; "repo"; "m"] |};
                {| name := ["home"; "user"; ".z"];
                   target := ["home"; "user"; "repo"; "z"] |} ]).
Proof.
  split; [reflexivity|].
  apply (contents_names_differ plain_repo zam_fs
           [("z", File); ("a", File); ("m", File)] _
           eq_refl eq_refl eq_refl).
Defined.

Lemma string_leb_trans (a b c : string) :
  String.leb a b = true -> String.leb b c = true -> String.leb a c = true.
Proof.
  unfold String.leb. revert b c.
  induction a as [|x a IH]; intros [|y b] [|z c]; simpl;
    try reflexivity; try discriminate.
  unfold Ascii.compare.
  destruct (N.compare_spec (N_of_ascii x) (N_of_ascii y)) as [Exy|Lxy|Gxy];
    destruct (N.compare_spec (N_of_ascii y) (N_of_ascii z)) as [Eyz|Lyz|Gyz];
    destruct (N.compare_spec (N_of_ascii x) (N_of_ascii z)) as [Exz|Lxz|Gxz];
    try reflexivity; try discriminate; try lia.
  apply IH.
Qed.

Lemma name_le_trans : Relations_1.Transitive (fun a b => name_le a b = true).
Proof. intros a b c. unfold name_le. apply string_leb_trans. Qed.

Lemma name_le_refl (a : Dotfile) : name_le a a = true.
Proof.
  unfold name_le.
  destruct (String.leb_total (strpath (name a)) (strpath (name a))); assumption.
Qed.

(** Two lists in the order of their names that hold the same dotfiles,
    none of them sharing the string of its name with another, are one
    list. *)
Lemma by_name_unique (l1 : list Dotfile) :
  forall l2,
    Permutation l1 l2 ->
    by_name l1 -> by_name l2 ->
    (forall a b, In a l1 -> In b l1 ->
                 strpath (name a) = strpath (name b) -> a = b) ->
    l1 = l2.
Proof.
  induction l1 as [|a l1 IH]; intros l2 HP H1 H2 Hinj.
  - apply Permutation_nil in HP. congruence.
  - destruct l2 as [|b l2];
      [apply Permutation_sym, Permutation_nil in HP; discriminate|].
    pose proof (Sorted_StronglySorted name_le_trans H1) as S1.
    pose proof (Sorted_StronglySorted name_le_trans H2) as S2.
    apply StronglySorted_inv in S1, S2.
    destruct S1 as [S1 F1]. destruct S2 as [S2 F2].
    rewrite Forall_forall in F1, F2.
    assert (Hb : In b (a :: l1))
      by (apply (Permutation_in _ (Permutation_sym HP)); left; reflexivity).
    assert (Ha : In a (b :: l2))
      by (apply (Permutation_in _ HP); left; reflexivity).
    assert (Hab : name_le a b = true).
    { destruct Hb as [<-|Hb]; [apply name_le_refl | apply F1; exact Hb]. }
    assert (Hba : name_le b a = true).
    { destruct Ha as [<-|Ha]; [apply name_le_refl | apply F2; exact Ha]. }
    assert (E : a = b).
    { apply Hinj; [left; reflexivity | exact Hb |].
      apply String.leb_antisym; assumption. }
    subst b. f_equal. apply IH.
    + apply (Permutation_cons_inv HP).
    + apply StronglySorted_Sorted. exact S1.
    + apply StronglySorted_Sorted. exact S2.
    + intros x y Hx Hy. apply Hinj; right; assumption.
Qed.

Lemma concat_valid_nonempty (x : string) (l : list string) :
  valid_name x = true -> String.concat "/" (x :: l) <> "".
Proof.
  intros H. apply valid_name_spec in H. destruct H as [H _].
  destruct x as [|c x]; [congruence|]. destruct l; discriminate.
Qed.

Lemma strpath_injective (p q : path) :
  valid_rel p = true -> valid_rel q = true ->
  strpath p = strpath q -> p = q.
Proof.
  intros Hp Hq E. unfold strpath in E. simpl in E. inversion E as [E'].
  destruct p as [|x p], q as [|y q]; [reflexivity | | |].
  - exfalso. simpl in Hq. apply andb_true_iff in Hq.
    apply (concat_valid_nonempty y q (proj1 Hq)). symmetry. exact E'.
  - exfalso. simpl in Hp. apply andb_true_iff in Hp.
    apply (concat_valid_nonempty x p (proj1 Hp)). exact E'.
  - apply (f_equal Str.split) in E'.
    rewrite !split_concat in E'
      by (try discriminate; apply valid_rel_no_sep; assumption).
    exact E'.
Qed.

Lemma valid_rel_app (p q : list string) :
  valid_rel (p ++ q) = valid_rel p && valid_rel q.
Proof. unfold valid_rel. apply forallb_app. Qed.

Lemma target_to_name_valid (self : Repository) (rel : list string) :
  valid_rel (homedir self) = true ->
  valid_rel rel = true ->
  rel <> [] ->
  valid_rel (_target_to_name self (repodir self ++ rel)) = true.
Proof.
  intros Hh Hr Hne. rewrite target_to_name_below by exact Hr.
  destruct (dot self).
  - rewrite valid_rel_app, Hh, Hr. reflexivity.
  - destruct rel as [|s rest]; [congruence|].
    rewrite valid_rel_app, Hh. simpl in *.
    apply andb_true_iff in Hr. destruct Hr as [Hs Hrest].
    rewrite (valid_name_dotted _ Hs), Hrest. reflexivity.
Qed.

(** X10: the list [contents] returns does not depend on the order in which
    directories list their entries: two well-formed file systems with the
    same files give the same list. *)
Theorem contents_independent_of_listing :
  forall (self : Repository) (fs1 fs2 : node)
         (es1 es2 : list (string * node)),
    wf fs1 = true -> wf fs2 = true ->
    valid_rel (homedir self) = true ->
    lookup fs1 (repodir self) = Some (Dir es1) ->
    lookup fs2 (repodir self) = Some (Dir es2) ->
    (forall q, lookup fs1 q = Some File <-> lookup fs2 q = Some File) ->
    contents self fs1 = contents self fs2
    /\ exists ds, contents self fs1 = Ok ds.
Proof.
  intros self fs1 fs2 es1 es2 Hwf1 Hwf2 Hh Hp1 Hp2 Hsame.
  destruct (contents_spec self fs1 (repodir self) es1 Hwf1 Hp1)
    as (f1 & Hf1 & Hnd1 & Hs1).
  destruct (contents_spec self fs2 (repodir self) es2 Hwf2 Hp2)
    as (f2 & Hf2 & Hnd2 & Hs2).
  unfold contents. rewrite Hf1, Hf2. simpl.
  split; [|eauto]. f_equal.
  assert (HP : Permutation f1 f2).
  { apply NoDup_Permutation; [exact Hnd1 | exact Hnd2 |].
    intros e. rewrite Hs1, Hs2.
    split; intros (rel & Hne & -> & Hl & Hf); exists rel;
      (split; [exact Hne|]; split; [reflexivity|]; split; [|exact Hf]);
      apply Hsame; exact Hl. }
  apply by_name_unique.
  - rewrite sorted_perm, sorted_perm. apply Permutation_map. exact HP.
  - apply sorted_by_name.
  - apply sorted_by_name.
  - intros a b Ha Hb E.
    apply (Permutation_in _ (sorted_perm _)) in Ha, Hb.
    apply in_map_iff in Ha, Hb.
    destruct Ha as (x & <- & Hx). destruct Hb as (y & <- & Hy).
    apply Hs1 in Hx, Hy.
    destruct Hx as (r1 & N1 & -> & L1 & _).
    destruct Hy as (r2 & N2 & -> & L2 & _).
    rewrite lookup_app, Hp1 in L1, L2.
    pose proof (wf_lookup _ _ _ Hwf1 Hp1) as Hwfd.
    pose proof (wf_lookup_valid r1 _ _ Hwfd L1) as V1.
    pose proof (wf_lookup_valid r2 _ _ Hwfd L2) as V2.
    simpl in E. apply strpath_injective in E;
      try (apply target_to_name_valid; assumption).
    rewrite (target_to_name_injective self r1 r2 V1 V2 E). reflexivity.
Qed.

Lemma contents_independent_of_listing_witness :
  wf zam_fs = true /\ wf maz_fs = true
  /\ (forall q, lookup zam_fs q = Some File <-> lookup maz_fs q = Some File)
  /\ contents plain_repo zam_fs = contents plain_repo maz_fs.
Proof.
  assert (Hsame : forall q, lookup zam_fs q = Some File
                            <-> lookup maz_fs q = Some File).
  { intros q. unfold zam_fs, maz_fs.
    destruct q as [|a q]; simpl; [split; discriminate|].
    destruct (String.eqb a "home"); [|tauto].
    destruct q as [|b q]; simpl; [split; discriminate|].
    destruct (String.eqb b "user"); [|tauto].
    destruct q as [|c q]; simpl; [split; discriminate|].
    destruct (String.eqb c "repo"); [|tauto].
    destruct q as [|d q]; simpl; [split; discriminate|].
    destruct (String.eqb d "z") eqn:Ez;
      [apply String.eqb_eq in Ez; subst; simpl; tauto|].
    destruct (String.eqb d "a") eqn:Ea;
      [apply String.eqb_eq in Ea; subst; simpl; tauto|].
    destruct (String.eqb d "m") eqn:Em;
      [apply String.eqb_eq in Em; subst; simpl; tauto|].
    tauto. }
  split; [reflexivity|]. split; [reflexivity|]. split; [exact Hsame|].
  apply (proj1 (contents_independent_of_listing plain_repo zam_fs maz_fs
                  [("z", File); ("a", File); ("m", File)]
                  [("m", File); ("a", File); ("z", File)]
                  eq_refl eq_refl eq_refl eq_refl eq_refl Hsame)).
Defined.

(** ** [Repository.__init__] *)

Lemma kind_dir (fs : node) (q : path) :
  kind fs q = Some true <-> check_dir fs q = true.
Proof.
  unfold kind, check_dir. destruct (lookup fs q) as [[|?]|]; simpl;
    split; congruence.
Qed.

Lemma kind_file (fs : node) (q : path) :
  kind fs q = Some false <-> lookup fs q = Some File.
Proof.
  unfold kind. destruct (lookup fs q) as [[|?]|]; simpl;
    split; congruence.
Qed.

Lemma kind_none (fs : node) (q : path) :
  kind fs q = None <-> lookup fs q = None.
Proof.
  unfold kind. destruct (lookup fs q) as [[|?]|]; simpl;
    split; congruence.
Qed.

Lemma assoc_app (k : string) (es l : list (string * node)) :
  assoc k (es ++ l)
  = match assoc k es with
    | Some c => Some c
    | None => assoc k l
    end.
Proof.
  induction es as [|[k0 c0] es IH]; simpl; [reflexivity|].
  destruct (String.eqb k k0); [reflexivity | exact IH].
Qed.

Lemma lookup_add_entry (nm : string) (es : list (string * node))
  (rel : list string) :
  assoc nm es = None ->
  rel <> [nm] ->
  option_map is_dir (lookup (Dir (es ++ [(nm, Dir [])])) rel)
  = option_map is_dir (lookup (Dir es) rel).
Proof.
  intros Ha Hne. destruct rel as [|k rel]; [reflexivity|]. simpl.
  rewrite assoc_app. destruct (assoc k es) as [c|] eqn:E; [reflexivity|].
  simpl. destruct (String.eqb_spec k nm) as [->|_]; [|reflexivity].
  destruct rel as [|k' rel]; [congruence | reflexivity].
Qed.

Lemma check_dir_parent (fs : node) (p : path) (nm : string) (m : node) :
  lookup fs (p ++ [nm]) = Some m -> check_dir fs p = true.
Proof.
  rewrite lookup_app. unfold check_dir.
  destruct (lookup fs p) as [[|es]|]; simpl; try discriminate. reflexivity.
Qed.

(** What [mkdir] changes: the new directory is there, empty, and every
    other path is what it was. *)
Lemma mkdir_kind (fs : node) (parent : path) (nm : string)
  (es : list (string * node)) :
  lookup fs parent = Some (Dir es) ->
  assoc nm es = None ->
  lookup (update_at (add_entry nm) parent fs) (parent ++ [nm])
  = Some (Dir [])
  /\ forall q, q <> parent ++ [nm] ->
               kind (update_at (add_entry nm) parent fs) q = kind fs q.
Proof.
  intros Hp Ha. rewrite (update_at_graft _ _ _ _ Hp). split.
  - rewrite (lookup_graft_below _ _ _ _ [nm] Hp). simpl.
    rewrite assoc_app, Ha. simpl. rewrite String.eqb_refl. reflexivity.
  - intros q Hq. unfold kind.
    destruct (prefix_dec parent q) as [(rel & ->) | Hoff].
    + rewrite (lookup_graft_below _ _ _ _ rel Hp), lookup_app, Hp.
      apply lookup_add_entry; [exact Ha|]. congruence.
    + apply lookup_update_at_off. exact Hoff.
Qed.

Lemma ensuredirs_spec (n : nat) :
  forall (p : path) (fs : node),
    length p = n ->
    is_dir fs = true ->
    match ensuredirs n fs p with
    | Ok fs' => ensured p fs fs'
    | Raise e =>
        exists q rel, e = EEXIST q /\ p = q ++ rel /\ lookup fs q = Some File
    end.
Proof.
  induction n as [|n IH]; intros p fs Hlen Hroot.
  - destruct p; [|discriminate]. simpl. unfold ensured, check_dir. simpl.
    rewrite Hroot. repeat split; try discriminate. intros q. left.
    reflexivity.
  - destruct p as [|x p'] using rev_ind; [discriminate|]. clear IHp'.
    rename p' into parent. rewrite length_app in Hlen. simpl in Hlen.
    assert (Hlen' : length parent = n) by lia.
    simpl ensuredirs. rewrite removelast_snoc.
    (* the parent *)
    assert (HA : match (if check_nodir fs parent
                        then ensuredirs n fs parent else Ok fs) with
                 | Ok fs1 => ensured parent fs fs1
                 | Raise e =>
                     exists q rel, e = EEXIST q /\ parent = q ++ rel
                                   /\ lookup fs q = Some File
                 end).
    { unfold check_nodir. destruct (check_dir fs parent) eqn:Hd; simpl.
      - unfold ensured. repeat split; auto.
        intros Hn. unfold check_dir in Hd. rewrite Hn in Hd. discriminate.
      - apply IH; assumption. }
    destruct (if check_nodir fs parent then ensuredirs n fs parent else Ok fs)
      as [fs1|e]; simpl bind.
    2:{ destruct HA as (q & rel & -> & -> & Hq).
        exists q, (rel ++ [x]). rewrite app_assoc. auto. }
    destruct HA as (E1 & E2 & E3 & E4).
    assert (Hsame : check_dir fs (parent ++ [x]) = true -> fs1 = fs).
    { intros Hd. apply E2. unfold check_dir in Hd.
      destruct (lookup fs (parent ++ [x])) as [m|] eqn:El; [|discriminate].
      apply (check_dir_parent _ _ _ _ El). }
    assert (Hfar : forall rel, parent <> (parent ++ [x]) ++ rel).
    { intros rel E. apply (f_equal (@length _)) in E.
      rewrite !length_app in E. simpl in E. lia. }
    assert (Hweak : forall q,
               (exists rel, parent = q ++ rel) ->
               exists rel, parent ++ [x] = q ++ rel).
    { intros q (rel & ->). exists (rel ++ [x]). rewrite app_assoc.
      reflexivity. }
    unfold check_nodir. destruct (check_dir fs1 (parent ++ [x])) eqn:Hd1;
      simpl negb; cbv iota.
    + (* a directory already *)
      unfold ensured. split; [exact Hd1|]. split; [exact Hsame|]. split.
      * intros Hn. exfalso.
        destruct (E4 (parent ++ [x])) as [K | (_ & _ & rel & E)].
        -- apply kind_none in Hn. rewrite Hn in K.
           apply kind_dir in Hd1. congruence.
        -- apply (Hfar rel E).
      * intros q. destruct (E4 q) as [K | (Hn & Hd & Hrel)]; [left; exact K|].
        right. auto.
    + (* to be made *)
      unfold mkdir. rewrite removelast_snoc, basename_snoc.
      destruct (lookup fs1 (parent ++ [x])) as [m|] eqn:El.
      * simpl.
        assert (m = File)
          by (unfold check_dir in Hd1; rewrite El in Hd1;
              destruct m; [reflexivity | discriminate]).
        subst m. exists (parent ++ [x]), []. rewrite app_nil_r.
        split; [reflexivity|]. split; [reflexivity|].
        destruct (E4 (parent ++ [x])) as [K | (_ & Hd & _)];
          [|congruence].
        apply kind_file. rewrite <- K. apply kind_file. exact El.
      * pose proof E1 as E1'. unfold check_dir in E1'.
        destruct (lookup fs1 parent) as [[|es]|] eqn:Hp; try discriminate.
        assert (Ha : assoc x es = None)
          by (rewrite <- (lookup_child _ _ _ x Hp); exact El).
        destruct (mkdir_kind fs1 parent x es Hp Ha) as [Hnew Hold].
        assert (Hmiss : lookup fs (parent ++ [x]) = None).
        { destruct (E4 (parent ++ [x])) as [K | (_ & Hd & _)]; [|congruence].
          apply kind_none. rewrite <- K. apply kind_none. exact El. }
        unfold ensured. split; [unfold check_dir; rewrite Hnew; reflexivity|].
        split; [|split; [intros _; exact Hnew|]].
        -- intros Hd. exfalso. unfold check_dir in Hd.
           rewrite Hmiss in Hd. discriminate.
        -- intros q.
           destruct (list_eq_dec string_dec q (parent ++ [x])) as [->|Hq].
           ++ right. split; [exact Hmiss|].
              split; [unfold check_dir; rewrite Hnew; reflexivity|].
              exists []. rewrite app_nil_r. reflexivity.
           ++ rewrite (Hold q Hq).
              destruct (E4 q) as [K | (Hn & Hd & Hrel)]; [left; exact K|].
              right. split; [exact Hn|]. split; [|auto].
              apply kind_dir. rewrite (Hold q Hq). apply kind_dir. exact Hd.
Qed.

Lemma init_unfold (fs : node) (repo home : path) (ign : list string)
  (dt : bool) :
  __init__ fs repo home ign dt
  = match ensuredirs (length repo) fs repo with
    | Ok fs' => Ok ({| repodir := repo; homedir := home; ignore := ign;
                       dot := dt |}, fs')
    | Raise e => Raise e
    end.
Proof. reflexivity. Qed.

Lemma ensured_not_blocked (p : path) (fs fs' : node) :
  ensured p fs fs' -> ~ blocked fs p.
Proof.
  intros (E1 & _ & _ & E4) (q & rel & -> & Hq).
  assert (Hq' : lookup fs' q = Some File).
  { destruct (E4 q) as [K | (Hn & _)]; [|congruence].
    apply kind_file. rewrite K. apply kind_file. exact Hq. }
  unfold check_dir in E1. rewrite lookup_app, Hq' in E1.
  destruct rel; discriminate.
Qed.

(** X11: [Repository(...)] on a file system whose root is a directory.
    When it returns, the repository holds the arguments as they are, and
    [repodir] is a directory; the file system is unchanged when [repodir]
    was a directory already; [repodir] is empty when it was missing; and
    every other path is what it was, except that missing ancestors of
    [repodir] have become directories.  When it raises, it raises [EEXIST]
    for a file that is [repodir] or an ancestor of it.  It returns exactly
    when no such file is in the way. *)
Theorem init_makes_repository_directory :
  forall (fs : node) (repo home : path) (ign : list string) (dt : bool),
    is_dir fs = true ->
    (forall self fs',
        __init__ fs repo home ign dt = Ok (self, fs') ->
        self = {| repodir := repo; homedir := home; ignore := ign;
                  dot := dt |}
        /\ ensured repo fs fs')
    /\ (forall e,
           __init__ fs repo home ign dt = Raise e ->
           exists q rel,
             e = EEXIST q /\ repo = q ++ rel /\ lookup fs q = Some File)
    /\ ((exists r, __init__ fs repo home ign dt = Ok r) <-> ~ blocked fs repo).
Proof.
  intros fs repo home ign dt Hroot.
  pose proof (ensuredirs_spec (length repo) repo fs eq_refl Hroot) as H.
  rewrite init_unfold.
  destruct (ensuredirs (length repo) fs repo) as [fs1|e].
  - split; [|split].
    + intros self fs' E. inversion E; subst. auto.
    + intros e E. discriminate.
    + split; [intros _; apply (ensured_not_blocked _ _ _ H) | eauto].
  - split; [|split].
    + intros self fs' E. discriminate.
    + intros e' E. inversion E; subst. exact H.
    + split; [intros (r & E); discriminate|].
      intros Hnb. exfalso. apply Hnb.
      destruct H as (q & rel & _ & -> & Hq). exists q, rel. auto.
Qed.

Lemma init_makes_repository_directory_witness :
  __init__ bare_fs ["home"; "user"; "repo"; "sub"] ["home"; "user"] [] true
  = Ok ({| repodir := ["home"; "user"; "repo"; "sub"];
           homedir := ["home"; "user"]; ignore := []; dot := true |},
        in_home [("sub", Dir [])])
  /\ ensured ["home"; "user"; "repo"; "sub"] bare_fs
       (in_home [("sub", Dir [])])
  /\ exists q rel,
      __init__ file_fs ["home"; "user"; "repo"; "sub"] ["home"; "user"] []
        true = Raise (EEXIST q)
      /\ ["home"; "user"; "repo"; "sub"] = q ++ rel
      /\ lookup file_fs q = Some File.
Proof.
  split; [reflexivity|]. split.
  - apply (proj1 (init_makes_repository_directory bare_fs
                    ["home"; "user"; "repo"; "sub"] ["home"; "user"] [] true
                    eq_refl) _ _ eq_refl).
  - destruct (proj1 (proj2 (init_makes_repository_directory file_fs
                ["home"; "user"; "repo"; "sub"] ["home"; "user"] [] true
                eq_refl)) _ eq_refl) as (q & rel & E & Hp & Hq).
    exists q, rel. rewrite <- E. auto.
Defined.

Lemma assoc_none_notin (nm : string) (es : list (string * node)) :
  assoc nm es = None -> ~ In nm (map fst es).
Proof.
  induction es as [|[k c] es IH]; simpl; [tauto|].
  destruct (String.eqb_spec nm k) as [->|Hne]; [discriminate|].
  intros H [E|Hin]; [congruence | apply (IH H Hin)].
Qed.

Lemma wf_add_entry (nm : string) (es : list (string * node)) :
  wf (Dir es) = true ->
  valid_name nm = true ->
  assoc nm es = None ->
  wf (add_entry nm (Dir es)) = true.
Proof.
  intros Hwf Hv Ha. simpl add_entry. apply wf_Dir. apply wf_Dir in Hwf.
  destruct Hwf as [Hnd Hes]. split.
  - rewrite map_app. simpl. apply NoDup_app; [exact Hnd | | ].
    + repeat constructor. simpl. tauto.
    + intros a Ha' [<-|[]]. apply (assoc_none_notin _ _ Ha Ha').
  - intros k c Hin. apply in_app_or in Hin.
    destruct Hin as [Hin|[E|[]]]; [apply Hes; exact Hin|].
    inversion E; subst. auto.
Qed.

Lemma ensuredirs_wf (n : nat) :
  forall (p : path) (fs fs' : node),
    length p = n ->
    wf fs = true ->
    valid_rel p = true ->
    ensuredirs n fs p = Ok fs' ->
    wf fs' = true.
Proof.
  induction n as [|n IH]; intros p fs fs' Hlen Hwf Hv H.
  - simpl in H. inversion H. subst. exact Hwf.
  - destruct p as [|x parent _] using rev_ind; [discriminate|].
    rewrite length_app in Hlen. simpl in Hlen.
    rewrite valid_rel_app in Hv. apply andb_true_iff in Hv.
    destruct Hv as [Hvp Hvx]. simpl in Hvx. rewrite andb_true_r in Hvx.
    simpl ensuredirs in H. rewrite removelast_snoc in H.
    assert (HA : forall fs1,
               (if check_nodir fs parent then ensuredirs n fs parent
                else Ok fs) = Ok fs1 -> wf fs1 = true).
    { intros fs1. destruct (check_nodir fs parent).
      - apply IH; [lia | exact Hwf | exact Hvp].
      - intros E. inversion E. subst. exact Hwf. }
    destruct (if check_nodir fs parent then ensuredirs n fs parent else Ok fs)
      as [fs1|e]; simpl bind in H; [|discriminate].
    specialize (HA fs1 eq_refl).
    destruct (check_nodir fs1 (parent ++ [x])) eqn:Hc;
      [|inversion H; subst; exact HA].
    unfold mkdir in H. rewrite removelast_snoc, basename_snoc in H.
    destruct (lookup fs1 (parent ++ [x])) as [m|] eqn:El; [discriminate|].
    destruct (lookup fs1 parent) as [[|es]|] eqn:Hp; try discriminate.
    inversion H; subst fs'.
    apply wf_update_at; [exact HA|].
    intros m Hm Hwm. rewrite Hp in Hm. inversion Hm; subst m.
    apply wf_add_entry; [exact Hwm | exact Hvx |].
    rewrite <- (lookup_child _ _ _ x Hp). exact El.
Qed.

(** X12: a repository made where nothing was: on a well-formed file
    system, with [repodir] missing, what [Repository(...)] leaves is
    well-formed, holds the files it held, [contents] of the new repository
    is empty and [prune] changes nothing. *)
Theorem init_fresh_repository :
  forall (fs fs' : node) (repo home : path) (ign : list string) (dt : bool)
         (self : Repository),
    wf fs = true ->
    is_dir fs = true ->
    valid_rel repo = true ->
    lookup fs repo = None ->
    __init__ fs repo home ign dt = Ok (self, fs') ->
    wf fs' = true
    /\ (forall q, lookup fs' q = Some File <-> lookup fs q = Some File)
    /\ contents self fs' = Ok []
    /\ prune self fs' = Ok fs'.
Proof.
  intros fs fs' repo home ign dt self Hwf Hroot Hv Hmiss Hinit.
  pose proof (ensuredirs_spec (length repo) repo fs eq_refl Hroot) as Hs.
  pose proof (ensuredirs_wf (length repo) repo fs) as Hw.
  rewrite init_unfold in Hinit.
  destruct (ensuredirs (length repo) fs repo) as [fs1|e]; [|discriminate].
  inversion Hinit; subst. clear Hinit.
  specialize (Hw fs' eq_refl Hwf Hv eq_refl).
  destruct Hs as (_ & _ & E3 & E4). specialize (E3 Hmiss).
  set (self := {| repodir := repo; homedir := home; ignore := ign;
                  dot := dt |}).
  change (lookup fs' (repodir self) = Some (Dir [])) in E3.
  split; [exact Hw|]. split; [|split].
  - intros q. rewrite <- !kind_file.
    destruct (E4 q) as [K | (Hn & Hd & _)]; [rewrite K; tauto|].
    apply kind_none in Hn. apply kind_dir in Hd. rewrite Hn, Hd.
    split; discriminate.
  - unfold contents.
    rewrite (contents_below self fs' (repodir self) [] Hw E3). reflexivity.
  - rewrite (prune_pruned self fs' [] Hw E3). simpl pruned.
    rewrite (graft_same _ _ _ E3). reflexivity.
Qed.

Lemma init_fresh_repository_witness :
  wf bare_fs = true
  /\ lookup bare_fs ["home"; "user"; "repo"; "sub"] = None
  /\ contents
       {| repodir := ["home"; "user"; "repo"; "sub"];
          homedir := ["home"; "user"]; ignore := []; dot := true |}
       (in_home [("sub", Dir [])]) = Ok []
  /\ prune
       {| repodir := ["home"; "user"; "repo"; "sub"];
          homedir := ["home"; "user"]; ignore := []; dot := true |}
       (in_home [("sub", Dir [])])
     = Ok (in_home [("sub", Dir [])]).
Proof.
  split; [reflexivity|]. split; [reflexivity|].
  apply (init_fresh_repository bare_fs (in_home [("sub", Dir [])])
           ["home"; "user"; "repo"; "sub"] ["home"; "user"] [] true _
           eq_refl eq_refl eq_refl eq_refl eq_refl).
Defined.

(** ** Names and targets of [contents]; directories side by side *)

(** X13: every dotfile [contents] returns has a file of the repository as
    its target, and as its name the path with the same components below
    the home directory, with a dot before the first of them when the dot
    is not preserved. *)
Theorem contents_name_of_target :
  forall (self : Repository) (fs : node) (es : list (string * node))
         (ds : list Dotfile) (d : Dotfile),
    wf fs = true ->
    lookup fs (repodir self) = Some (Dir es) ->
    contents self fs = Ok ds ->
    In d ds ->
    exists s rest,
      target d = repodir self ++ s :: rest
      /\ name d
         = homedir self ++ (if dot self then s else String "." s) :: rest
      /\ lookup fs (target d) = Some File.
Proof.
  intros self fs es ds d Hwf Hp Hc Hin.
  destruct (contents_spec self fs (repodir self) es Hwf Hp)
    as (found & Hf & _ & Hspec).
  unfold contents in Hc. rewrite Hf in Hc. simpl in Hc.
  inversion Hc; subst ds.
  apply (Permutation_in _ (sorted_perm _)) in Hin.
  apply in_map_iff in Hin. destruct Hin as (e & <- & He).
  apply Hspec in He. destruct He as (rel & Hne & -> & Hl & _).
  destruct rel as [|s rest]; [congruence|].
  exists s, rest. simpl. split; [reflexivity|]. split; [|exact Hl].
  rewrite target_to_name_below.
  - destruct (dot self); reflexivity.
  - rewrite lookup_app, Hp in Hl.
    apply (wf_lookup_valid _ (Dir es) File (wf_lookup _ _ _ Hwf Hp) Hl).
Qed.

Lemma contents_name_of_target_witness :
  wf zam_fs = true
  /\ exists s rest,
      ["home"; "user"; "repo"; "m"] = repodir plain_repo ++ s :: rest
      /\ ["home"; "user"; ".m"]
         = homedir plain_repo
           ++ (if dot plain_repo then s else String "." s) :: rest
      /\ lookup zam_fs ["home"; "user"; "repo"; "m"] = Some File.
Proof.
  split; [reflexivity|].
  apply (contents_name_of_target plain_repo zam_fs
           [("z", File); ("a", File); ("m", File)] _
           {| name := ["home"; "user"; ".m"];
              target := ["home"; "user"; "repo"; "m"] |}
           eq_refl eq_refl eq_refl).
  simpl. tauto.
Defined.

Lemma list_remove_other (x y : path) (l : list path) :
  x <> y -> list_remove x (y :: l) = y :: list_remove x l.
Proof.
  intros Hne. simpl. destruct (Path.eqb x y) eqn:E; [|reflexivity].
  apply path_eqb_eq in E. congruence.
Qed.

(** Once the iterator is past the head of the list, a directory that
    stands there and nowhere else stays there. *)
Lemma expand_keeps_head (self : Repository) (fs : node) (d : path) :
  wf fs = true ->
  check_dir fs d = true ->
  forall fuel i t expanded,
    1 <= i ->
    ~ In d t ->
    expand self fs fuel i (d :: t) = Ok expanded ->
    exists t', expanded = d :: t'.
Proof.
  intros Hwf Hd. induction fuel as [|fuel IH]; intros i t expanded Hi Hnt;
    [discriminate|].
  cbn [expand].
  destruct (nth_error (d :: t) i) as [p|] eqn:Hn.
  - assert (Hp : In p t).
    { destruct i as [|i]; [lia|]. simpl in Hn. apply (nth_error_In _ _ Hn). }
    destruct (check_dir fs p) eqn:Hdp; [|apply IH; [lia | assumption]].
    destruct (contents_of_dir self fs Hwf p Hdp) as (found & Hc & Hnd).
    rewrite Hc. cbn [bind].
    assert (Hne : p <> d) by (intros ->; contradiction).
    change ((d :: t) ++ found) with (d :: (t ++ found)).
    rewrite (list_remove_other p d (t ++ found) Hne).
    apply IH; [lia|].
    intros Hin. apply list_remove_incl in Hin. apply in_app_or in Hin.
    destruct Hin as [Hin|Hin]; [contradiction|].
    rewrite (Hnd d Hin) in Hd. discriminate.
  - intros H. inversion H. eauto.
Qed.

(** Once the iterator is past the head of the list, a directory that
    stands there and nowhere else stays there, and what every round of the
    loop keeps of the rest of the list holds at the end. *)
Lemma expand_behind_head (self : Repository) (fs : node) (d : path)
  (P : list path -> Prop) :
  wf fs = true ->
  check_dir fs d = true ->
  (forall t p found,
      P t -> ~ In d t -> In p t -> check_dir fs p = true ->
      _contents self fs p = Ok found ->
      (forall q, In q found -> check_dir fs q = false) ->
      P (list_remove p (t ++ found))) ->
  forall fuel i t expanded,
    1 <= i ->
    ~ In d t ->
    P t ->
    expand self fs fuel i (d :: t) = Ok expanded ->
    exists t', expanded = d :: t' /\ ~ In d t' /\ P t'.
Proof.
  intros Hwf Hd Hstep.
  induction fuel as [|fuel IH]; intros i t expanded Hi Hnt HP;
    [discriminate|].
  cbn [expand].
  destruct (nth_error (d :: t) i) as [p|] eqn:Hn.
  - assert (Hp : In p t).
    { destruct i as [|i]; [lia|]. simpl in Hn. apply (nth_error_In _ _ Hn). }
    destruct (check_dir fs p) eqn:Hdp; [|apply IH; [lia | assumption..]].
    destruct (contents_of_dir self fs Hwf p Hdp) as (found & Hc & Hnd).
    rewrite Hc. cbn [bind].
    assert (Hne : p <> d) by (intros ->; contradiction).
    change ((d :: t) ++ found) with (d :: (t ++ found)).
    rewrite (list_remove_other p d (t ++ found) Hne).
    apply IH; [lia| |].
    + intros Hin. apply list_remove_incl in Hin. apply in_app_or in Hin.
      destruct Hin as [Hin|Hin]; [contradiction|].
      rewrite (Hnd d Hin) in Hd. discriminate.
    + apply (Hstep t p found HP Hnt Hp Hdp Hc Hnd).
  - intros H. inversion H. eauto.
Qed.

(** X14: when the list the set made starts with two directories, the loop
    of [dotfiles] expands the first and not the second.  The first leaves
    the list and every path [_contents] yields below it is in the list at
    the end.  The second stays, once, at the head of the list; nothing
    comes into the list on its account: every other path of the list at
    the end is a path of the list the set made, a path yielded below the
    first directory, or one yielded below a directory that stood behind
    the second.  So [_dotfile] raises for the second directory, and the
    exception is echoed. *)
Theorem dotfiles_second_directory_unexpanded :
  forall (self : Repository) (fs : node) (d1 d2 : path) (rest : list path),
    wf fs = true ->
    check_dir fs d1 = true ->
    check_dir fs d2 = true ->
    NoDup (d1 :: d2 :: rest) ->
    exists found1 t err,
      _contents self fs d1 = Ok found1
      /\ expand self fs (rounds self fs (d1 :: d2 :: rest)) 0
           (d1 :: d2 :: rest)
         = Ok (d2 :: t)
      /\ ~ In d1 (d2 :: t)
      /\ (forall q, In q found1 -> In q t)
      /\ ~ In d2 t
      /\ (forall q, In q t ->
          In q rest
          \/ In q found1
          \/ exists dir found,
               In dir rest /\ check_dir fs dir = true
               /\ _contents self fs dir = Ok found /\ In q found)
      /\ dotfiles_from self fs (d1 :: d2 :: rest)
         = Ok (validated self fs (d2 :: t), echoed self fs (d2 :: t))
      /\ _dotfile self fs d2 = Raise err
      /\ In err (echoed self fs (d2 :: t)).
Proof.
  intros self fs d1 d2 rest Hwf Hd1 Hd2 Hnd.
  destruct (expand_rounds self fs Hwf (d1 :: d2 :: rest)) as (expanded & He).
  destruct (contents_of_dir self fs Hwf d1 Hd1) as (found1 & Hc & Hnf).
  inversion Hnd as [|? ? Hn1 Hnd']; subst.
  inversion Hnd' as [|? ? Hn2 _]; subst.
  assert (E : forall fuel,
             expand self fs (S fuel) 0 (d1 :: d2 :: rest)
             = expand self fs fuel 1 (d2 :: rest ++ found1)).
  { intros fuel. cbn [expand nth_error]. rewrite Hd1, Hc. cbn [bind].
    simpl list_remove. rewrite path_eqb_refl. reflexivity. }
  pose proof He as He'. unfold rounds in He'. rewrite E in He'.
  set (origin := fun q : path =>
         In q rest
         \/ In q found1
         \/ exists dir found,
              In dir rest /\ check_dir fs dir = true
              /\ _contents self fs dir = Ok found /\ In q found).
  apply (expand_behind_head self fs d2
           (fun t => ~ In d1 t
                     /\ (forall q, In q found1 -> In q t)
                     /\ (forall q, In q t -> origin q)) Hwf Hd2) in He'.
  - destruct He' as (t & -> & Hn2' & Hn1' & Hsub & Horig).
    assert (Herr : exists err, _dotfile self fs d2 = Raise err).
    { destruct (_dotfile self fs d2) as [d|err] eqn:Ed; [|eauto].
      apply dotfile_ok in Ed. destruct Ed as (_ & _ & _ & _ & Ed).
      congruence. }
    destruct Herr as (err & Herr).
    exists found1, t, err.
    split; [exact Hc|]. split; [exact He|].
    split.
    { intros [H|H]; [|contradiction]. subst d2. apply Hn1. left. reflexivity. }
    split; [exact Hsub|]. split; [exact Hn2'|]. split; [exact Horig|].
    split; [apply dotfiles_from_expanded; exact He|].
    split; [exact Herr|].
    apply In_echoed. exists d2. split; [left; reflexivity | exact Herr].
  - intros t p found (Hn1' & Hsub & Horig) _ Hp Hdp Hcp Hnp.
    assert (Hprest : In p rest).
    { destruct (Horig p Hp) as [H|[H|(dir & fnd & Hdir & Hdd & Hcd & H)]].
      - exact H.
      - rewrite (Hnf p H) in Hdp. discriminate.
      - rewrite (contents_no_dir self fs dir fnd Hwf Hdd Hcd p H) in Hdp.
        discriminate. }
    split; [|split].
    + intros H. apply list_remove_incl in H. apply in_app_or in H.
      destruct H as [H|H]; [contradiction|].
      rewrite (Hnp d1 H) in Hd1. discriminate.
    + intros q Hq. apply In_list_remove.
      * apply in_or_app. left. apply Hsub. exact Hq.
      * intros ->. rewrite (Hnf p Hq) in Hdp. discriminate.
    + intros q Hq. apply list_remove_incl in Hq. apply in_app_or in Hq.
      destruct Hq as [Hq|Hq]; [apply Horig; exact Hq|].
      right. right. exists p, found. auto.
  - lia.
  - intros H. apply in_app_or in H. destruct H as [H|H]; [contradiction|].
    rewrite (Hnf d2 H) in Hd2. discriminate.
  - split; [|split].
    + intros H. apply in_app_or in H. destruct H as [H|H].
      * apply Hn1. right. exact H.
      * rewrite (Hnf d1 H) in Hd1. discriminate.
    + intros q Hq. apply in_or_app. right. exact Hq.
    + intros q Hq. apply in_app_or in Hq. destruct Hq as [Hq|Hq].
      * left. exact Hq.
      * right. left. exact Hq.
Qed.

Lemma dotfiles_second_directory_unexpanded_witness :
  wf home_fs = true
  /\ exists found1 t err,
      _contents home_repo home_fs dir1 = Ok found1
      /\ expand home_repo home_fs
           (rounds home_repo home_fs [dir1; dir2; dir1_a]) 0
           [dir1; dir2; dir1_a]
         = Ok (dir2 :: t)
      /\ ~ In dir1 (dir2 :: t)
      /\ (forall q, In q found1 -> In q t)
      /\ ~ In dir2 t
      /\ (forall q, In q t ->
          In q [dir1_a]
          \/ In q found1
          \/ exists dir found,
               In dir [dir1_a] /\ check_dir home_fs dir = true
               /\ _contents home_repo home_fs dir = Ok found /\ In q found)
      /\ dotfiles_from home_repo home_fs [dir1; dir2; dir1_a]
         = Ok (validated home_repo home_fs (dir2 :: t),
               echoed home_repo home_fs (dir2 :: t))
      /\ _dotfile home_repo home_fs dir2 = Raise err
      /\ In err (echoed home_repo home_fs (dir2 :: t)).
Proof.
  split; [reflexivity|].
  apply (dotfiles_second_directory_unexpanded home_repo home_fs
           dir1 dir2 [dir1_a]); try reflexivity.
  repeat constructor; simpl; intuition discriminate.
Defined.
